(** * AnjaniDeepaEnterprises: the job-application server (server.js)

    A shallow embedding of the request handlers of [server.js] and of the
    runtime functions they call, followed by the properties of the
    specification that the handlers are checked against.

    Conventions of the embedding.
    - A JavaScript string is a [string]: a sequence of 8-bit code units.
    - A JavaScript integer number is a [Z]; fractions are not modelled.
    - A value that may be [undefined] (or [null]) is an [option].
    - The disk is one finite map from path to file content; file-system
      calls on it do not fail for lack of permission or of a directory.
    - Paths follow the POSIX conventions of Node ([path.sep] is "/").
    - A handler runs from its first statement to its response without
      another request interleaving. *)

From Stdlib Require Import ZArith NArith Ascii String List Bool Lia.
From Stdlib Require Import Decimal DecimalString DecimalN DecimalZ.
From stdpp Require Import base option list gmap strings.

Local Open Scope Z_scope.
Local Open Scope stdpp_scope.

#[local] Arguments String.append !s1 s2 / : simpl nomatch.

(** ** Characters and strings of the runtime *)

Module Chars.

(** The double quote and the line feed, which a literal cannot spell. *)
Definition dquote : ascii := "034"%char.
Definition lf : ascii := "010"%char.

Definition is_digit (c : ascii) : bool :=
  match c with
  | "0" | "1" | "2" | "3" | "4" | "5" | "6" | "7" | "8" | "9" => true
  | _ => false
  end%char.

(** White space of the JSON grammar: space, tab, line feed, carriage
    return. *)
Definition is_json_ws (c : ascii) : bool :=
  match c with
  | " " | "009" | "010" | "013" => true
  | _ => false
  end%char.

(** [\s] of a JavaScript regular expression, on 8-bit code units: tab,
    line feed, vertical tab, form feed, carriage return, space and the
    no-break space. *)
Definition is_space (c : ascii) : bool :=
  match c with
  | "009" | "010" | "011" | "012" | "013" | " " | "160" => true
  | _ => false
  end%char.

(** [String.prototype.toLowerCase] on one code unit: A-Z, and the
    upper-case letters of Latin-1 (U+00C0 to U+00DE but the
    multiplication sign U+00D7), move up by 32. *)
Definition to_lower (c : ascii) : ascii :=
  let n := N_of_ascii c in
  if ((65 <=? n) && (n <=? 90))%N then ascii_of_N (n + 32)
  else if ((192 <=? n) && (n <=? 222) && negb (n =? 215))%N
       then ascii_of_N (n + 32)
  else c.

End Chars.

Module Str.

Fixpoint toLowerCase (s : string) : string :=
  match s with
  | EmptyString => EmptyString
  | String c r => String (Chars.to_lower c) (toLowerCase r)
  end.

(** [s.startsWith(p)], returning what follows the prefix. *)
Fixpoint strip_prefix (p s : string) : option string :=
  match p with
  | EmptyString => Some s
  | String a p' =>
      match s with
      | String b s' => if Ascii.eqb a b then strip_prefix p' s' else None
      | EmptyString => None
      end
  end.

(** [s.replace(/^\/+/, '')]: drop the slashes the string starts with. *)
Fixpoint strip_leading_slashes (s : string) : string :=
  match s with
  | String c r => if Ascii.eqb c "/"%char then strip_leading_slashes r else s
  | EmptyString => EmptyString
  end.

(** [s.split(a).join(b)] for one-character [a] and [b]: every [a]
    becomes [b]. *)
Fixpoint replace_char (a b : ascii) (s : string) : string :=
  match s with
  | EmptyString => EmptyString
  | String c r =>
      String (if Ascii.eqb c a then b else c) (replace_char a b r)
  end.

(** [s.replace(/\s+/g, '_')]: every maximal run of white space becomes
    one underscore.  [in_run] tells that the previous character was
    white space. *)
Fixpoint collapse_ws_from (in_run : bool) (s : string) : string :=
  match s with
  | EmptyString => EmptyString
  | String c r =>
      if Chars.is_space c
      then (if in_run then collapse_ws_from true r
            else String "_"%char (collapse_ws_from true r))
      else String c (collapse_ws_from false r)
  end.
Definition collapse_ws (s : string) : string := collapse_ws_from false s.

(** [String(n)] and the decimal digits of template literals, for an
    integer. *)
Definition of_Z (n : Z) : string := NilZero.string_of_int (Z.to_int n).

(** [c.repeat(n)] *)
Fixpoint repeat (c : ascii) (n : nat) : string :=
  match n with
  | O => EmptyString
  | S k => String c (repeat c k)
  end.


(** Truthiness of a value that is a string or [undefined]: the empty
    string and [undefined] are falsy. *)
Definition truthy (v : option string) : bool :=
  match v with
  | Some (String _ _) => true
  | _ => false
  end.

(** [v || d] for such a value. *)
Definition or_else (v : option string) (d : string) : string :=
  match v with
  | Some (String c r) => String c r
  | _ => d
  end.

(** A value inside a template literal or under [String(..)]. *)
Definition interpolate (v : option string) : string :=
  match v with
  | Some s => s
  | None => "undefined"
  end.

End Str.

(** ** JSON.stringify and JSON.parse

    The two runtime functions the stores are read and written with, on the
    values the program serialises: [null], booleans, integers, strings,
    arrays and objects.  A number with a fraction or an exponent, and a
    [\u] escape above U+00FF, are outside the embedding and read as a
    syntax error. *)

Module Json.

#[warnings="-register-all"]
Inductive json : Type :=
| JNull
| JBool (b : bool)
| JNum (n : Z)
| JStr (s : string)
| JArr (items : list json)
| JObj (members : list (string * json)).

(** *** Serialisation *)

Definition hex_char (n : N) : ascii :=
  match n with
  | 0 => "0" | 1 => "1" | 2 => "2" | 3 => "3" | 4 => "4" | 5 => "5"
  | 6 => "6" | 7 => "7" | 8 => "8" | 9 => "9" | 10 => "a" | 11 => "b"
  | 12 => "c" | 13 => "d" | 14 => "e" | _ => "f"
  end%N%char.

(** QuoteJSONString, one code unit at a time. *)
Definition escape_char (c : ascii) : string :=
  match c with
  | "008"%char => "\b"
  | "009"%char => "\t"
  | "010"%char => "\n"
  | "012"%char => "\f"
  | "013"%char => "\r"
  | "034"%char => String "\" (String Chars.dquote "")
  | "\"%char => "\\"
  | _ =>
      let n := N_of_ascii c in
      if (n <? 32)%N
      then "\u00" +:+ String (hex_char (n / 16))
                        (String (hex_char (n mod 16)) "")
      else String c ""
  end.

Fixpoint escape (s : string) : string :=
  match s with
  | EmptyString => EmptyString
  | String c r => escape_char c +:+ escape r
  end.

Definition quote (s : string) : string :=
  String Chars.dquote (escape s +:+ String Chars.dquote "").

Fixpoint spaces (n : nat) : string :=
  match n with
  | O => EmptyString
  | S k => String " " (spaces k)
  end.

(** The line break and indentation put before an item at depth [cur];
    nothing when the gap is empty. *)
Definition newline (gap cur : nat) : string :=
  match gap with
  | O => EmptyString
  | S _ => String Chars.lf (spaces cur)
  end.

Definition colon (gap : nat) : string :=
  match gap with
  | O => ":"
  | S _ => ": "
  end.

Definition separator (gap cur : nat) : string := "," +:+ newline gap cur.

(** SerializeJSONProperty with an indentation of [gap] spaces per level,
    at current indentation [cur]. *)
Fixpoint stringify_at (gap cur : nat) (v : json) : string :=
  match v with
  | JNull => "null"
  | JBool true => "true"
  | JBool false => "false"
  | JNum n => Str.of_Z n
  | JStr s => quote s
  | JArr [] => "[]"
  | JArr items =>
      let inner := (cur + gap)%nat in
      "[" +:+ newline gap inner
          +:+ String.concat (separator gap inner)
                (map (stringify_at gap inner) items)
          +:+ newline gap cur +:+ "]"
  | JObj [] => "{}"
  | JObj members =>
      let inner := (cur + gap)%nat in
      "{" +:+ newline gap inner
          +:+ String.concat (separator gap inner)
                (map (fun kv : string * json =>
                        quote (fst kv) +:+ colon gap
                          +:+ stringify_at gap inner (snd kv)) members)
          +:+ newline gap cur +:+ "}"
  end.

(** [JSON.stringify(v)] and [JSON.stringify(v, null, gap)]. *)
Definition stringify (v : json) : string := stringify_at 0 0 v.
Definition stringify_pretty (gap : nat) (v : json) : string :=
  stringify_at gap 0 v.

(** *** Parsing *)

Fixpoint skip_ws (s : string) : string :=
  match s with
  | String c r => if Chars.is_json_ws c then skip_ws r else s
  | EmptyString => EmptyString
  end.

Definition hex_value (c : ascii) : option N :=
  let n := N_of_ascii c in
  if ((48 <=? n) && (n <=? 57))%N then Some (n - 48)%N
  else if ((97 <=? n) && (n <=? 102))%N then Some (n - 87)%N
  else if ((65 <=? n) && (n <=? 70))%N then Some (n - 55)%N
  else None.

(** The code unit of [\uh1h2h3h4], when it fits the embedding. *)
Definition unicode_escape (h1 h2 h3 h4 : ascii) : option ascii :=
  match hex_value h1, hex_value h2, hex_value h3, hex_value h4 with
  | Some 0%N, Some 0%N, Some c, Some d => Some (ascii_of_N (c * 16 + d))
  | _, _, _, _ => None
  end.

Definition simple_escape (e : ascii) : option ascii :=
  match e with
  | "034" => Some "034"
  | "\" => Some "\"
  | "/" => Some "/"
  | "b" => Some "008"
  | "f" => Some "012"
  | "n" => Some "010"
  | "r" => Some "013"
  | "t" => Some "009"
  | _ => None
  end%char.

Definition push (c : ascii) (r : option (string * string))
  : option (string * string) :=
  match r with
  | Some (s, rest) => Some (String c s, rest)
  | None => None
  end.

(** The characters of a string literal after its opening quote, up to
    and including the closing one. *)
Fixpoint parse_chars (s : string) : option (string * string) :=
  match s with
  | EmptyString => None
  | String c r =>
      if Ascii.eqb c Chars.dquote then Some (EmptyString, r)
      else if Ascii.eqb c "\"%char then
        match r with
        | String e r' =>
            if Ascii.eqb e "u"%char then
              match r' with
              | String h1 (String h2 (String h3 (String h4 r''))) =>
                  match unicode_escape h1 h2 h3 h4 with
                  | Some u => push u (parse_chars r'')
                  | None => None
                  end
              | _ => None
              end
            else
              match simple_escape e with
              | Some u => push u (parse_chars r')
              | None => None
              end
        | EmptyString => None
        end
      else if (N_of_ascii c <? 32)%N then None
      else push c (parse_chars r)
  end.

Definition digit_of_char (c : ascii) : option (uint -> uint) :=
  match c with
  | "0" => Some D0 | "1" => Some D1 | "2" => Some D2 | "3" => Some D3
  | "4" => Some D4 | "5" => Some D5 | "6" => Some D6 | "7" => Some D7
  | "8" => Some D8 | "9" => Some D9
  | _ => None
  end%char.

(** The longest run of decimal digits a string starts with. *)
Fixpoint parse_digits (s : string) : uint * string :=
  match s with
  | EmptyString => (Nil, EmptyString)
  | String c r =>
      match digit_of_char c with
      | Some d => let '(u, rest) := parse_digits r in (d u, rest)
      | None => (Nil, s)
      end
  end.

(** What may not follow the integer part in this embedding. *)
Definition continues_number (s : string) : bool :=
  match s with
  | String c _ =>
      Chars.is_digit c || Ascii.eqb c "."%char || Ascii.eqb c "e"%char
      || Ascii.eqb c "E"%char
  | EmptyString => false
  end.

(** An unsigned integer literal: no digit is an error, and so is a zero
    followed by more digits. *)
Definition parse_unsigned (s : string) : option (uint * string) :=
  match parse_digits s with
  | (Nil, _) => None
  | (D0 Nil, rest) =>
      if continues_number rest then None else Some (D0 Nil, rest)
  | (D0 _, _) => None
  | (u, rest) => if continues_number rest then None else Some (u, rest)
  end.

Definition parse_number (s : string) : option (json * string) :=
  match s with
  | String c r =>
      if Ascii.eqb c "-"%char then
        match parse_unsigned r with
        | Some (u, rest) => Some (JNum (Z.of_int (Neg u)), rest)
        | None => None
        end
      else
        match parse_unsigned s with
        | Some (u, rest) => Some (JNum (Z.of_int (Pos u)), rest)
        | None => None
        end
  | EmptyString => None
  end.

Definition keyword (k : string) (v : json) (s : string)
  : option (json * string) :=
  match Str.strip_prefix k s with
  | Some rest => Some (v, rest)
  | None => None
  end.

(** Recursive descent, [fuel] bounding the nesting and the number of
    items still to read. *)
Fixpoint parse_value (fuel : nat) (s : string) {struct fuel}
  : option (json * string) :=
  match fuel with
  | O => None
  | S f =>
      match skip_ws s with
      | EmptyString => None
      | String c r =>
          if Ascii.eqb c "n"%char then keyword "ull" JNull r
          else if Ascii.eqb c "t"%char then keyword "rue" (JBool true) r
          else if Ascii.eqb c "f"%char then keyword "alse" (JBool false) r
          else if Ascii.eqb c Chars.dquote then
            match parse_chars r with
            | Some (str, rest) => Some (JStr str, rest)
            | None => None
            end
          else if Ascii.eqb c "["%char then
            match skip_ws r with
            | String c' r' =>
                if Ascii.eqb c' "]"%char then Some (JArr [], r')
                else
                  match parse_items f r with
                  | Some (vs, rest) => Some (JArr vs, rest)
                  | None => None
                  end
            | EmptyString => None
            end
          else if Ascii.eqb c "{"%char then
            match skip_ws r with
            | String c' r' =>
                if Ascii.eqb c' "}"%char then Some (JObj [], r')
                else
                  match parse_members f r with
                  | Some (ms, rest) => Some (JObj ms, rest)
                  | None => None
                  end
            | EmptyString => None
            end
          else parse_number (String c r)
      end
  end

with parse_items (fuel : nat) (s : string) {struct fuel}
  : option (list json * string) :=
  match fuel with
  | O => None
  | S f =>
      match parse_value f s with
      | Some (v, r) =>
          match skip_ws r with
          | String c r' =>
              if Ascii.eqb c ","%char then
                match parse_items f r' with
                | Some (vs, rest) => Some (v :: vs, rest)
                | None => None
                end
              else if Ascii.eqb c "]"%char then Some ([v], r')
              else None
          | EmptyString => None
          end
      | None => None
      end
  end

with parse_members (fuel : nat) (s : string) {struct fuel}
  : option (list (string * json) * string) :=
  match fuel with
  | O => None
  | S f =>
      match skip_ws s with
      | String q r =>
          if Ascii.eqb q Chars.dquote then
            match parse_chars r with
            | Some (key, r1) =>
                match skip_ws r1 with
                | String c1 r2 =>
                    if Ascii.eqb c1 ":"%char then
                      match parse_value f r2 with
                      | Some (v, r3) =>
                          match skip_ws r3 with
                          | String c r' =>
                              if Ascii.eqb c ","%char then
                                match parse_members f r' with
                                | Some (ms, rest) =>
                                    Some ((key, v) :: ms, rest)
                                | None => None
                                end
                              else if Ascii.eqb c "}"%char
                                   then Some ([(key, v)], r')
                              else None
                          | EmptyString => None
                          end
                      | None => None
                      end
                    else None
                | EmptyString => None
                end
            | None => None
            end
          else None
      | EmptyString => None
      end
  end.

(** [JSON.parse(text)]; [None] stands for the SyntaxError it throws. *)
Definition parse (text : string) : option json :=
  match parse_value (S (String.length text)) text with
  | Some (v, rest) =>
      match skip_ws rest with
      | EmptyString => Some v
      | String _ _ => None
      end
  | None => None
  end.

(** Property access [o.key] on a parsed object: the last member of that
    name wins, as [JSON.parse] keeps the last duplicate. *)
Fixpoint get (key : string) (members : list (string * json))
  : option json :=
  match members with
  | [] => None
  | (k, v) :: rest =>
      match get key rest with
      | Some v' => Some v'
      | None => if String.eqb k key then Some v else None
      end
  end.

(** A string of JSON white space only. *)
Fixpoint blank (s : string) : bool :=
  match s with
  | EmptyString => true
  | String c r => Chars.is_json_ws c && blank r
  end.

(** How a serialised value starts: with a character that is neither
    white space nor a closing bracket. *)
Definition opens_value (c : ascii) : bool :=
  negb (Chars.is_json_ws c) && negb (Ascii.eqb c "]"%char)
  && negb (Ascii.eqb c "}"%char).

Definition member_text gap cur (kv : string * json) : string :=
  quote (fst kv) +:+ colon gap +:+ stringify_at gap cur (snd kv).

(** The nodes of a value, an upper bound of the fuel reading it takes. *)
Fixpoint weight (v : json) : nat :=
  match v with
  | JArr items => S (list_sum (map (fun x => S (weight x)) items))
  | JObj members =>
      S (list_sum (map (fun kv : string * json => S (weight (snd kv)))
                     members))
  | _ => 1
  end.

(** What the round trip states of [parse_value], [parse_items] and
    [parse_members] at a given fuel, for the proof by induction on it. *)
Definition reads_values (f : nat) : Prop :=
  forall v gap cur rest,
    (weight v <= f)%nat -> continues_number rest = false ->
    parse_value f (stringify_at gap cur v +:+ rest) = Some (v, rest).

Definition reads_items (f : nat) : Prop :=
  forall l gap cur cur' rest,
    l <> [] -> (list_sum (map (fun x => S (weight x)) l) <= f)%nat ->
    parse_items f
      (String.concat (separator gap cur) (map (stringify_at gap cur) l)
         +:+ newline gap cur' +:+ String "]" rest)
    = Some (l, rest).

Definition reads_members (f : nat) : Prop :=
  forall l gap cur cur' rest,
    l <> [] ->
    (list_sum (map (fun kv : string * json => S (weight (snd kv))) l)
     <= f)%nat ->
    parse_members f
      (String.concat (separator gap cur) (map (member_text gap cur) l)
         +:+ newline gap cur' +:+ String "}" rest)
    = Some (l, rest).

End Json.

(** ** Regular expressions

    The two patterns of the apply handler are anchored at both ends and
    use character classes, concatenation and repetition only; [test] is a
    whole-string match, decided with derivatives. *)

Module Regex.

Inductive regex : Type :=
| Void
| Eps
| Class (p : ascii -> bool)
| Seq (r1 r2 : regex)
| Alt (r1 r2 : regex)
| Star (r : regex).

Fixpoint nullable (r : regex) : bool :=
  match r with
  | Void => false
  | Eps => true
  | Class _ => false
  | Seq r1 r2 => nullable r1 && nullable r2
  | Alt r1 r2 => nullable r1 || nullable r2
  | Star _ => true
  end.

Fixpoint deriv (c : ascii) (r : regex) : regex :=
  match r with
  | Void => Void
  | Eps => Void
  | Class p => if p c then Eps else Void
  | Seq r1 r2 =>
      if nullable r1
      then Alt (Seq (deriv c r1) r2) (deriv c r2)
      else Seq (deriv c r1) r2
  | Alt r1 r2 => Alt (deriv c r1) (deriv c r2)
  | Star r1 => Seq (deriv c r1) (Star r1)
  end.

(** [/^r$/.test(s)] *)
Fixpoint test (r : regex) (s : string) : bool :=
  match s with
  | EmptyString => nullable r
  | String c s' => test (deriv c r) s'
  end.

Definition Char (c : ascii) : regex := Class (Ascii.eqb c).
Definition Plus (r : regex) : regex := Seq r (Star r).
Definition Opt (r : regex) : regex := Alt Eps r.

Fixpoint Power (n : nat) (r : regex) : regex :=
  match n with
  | O => Eps
  | S k => Seq r (Power k r)
  end.

(** [r{lo,hi}] with [lo <= hi]: [lo] copies, then up to [hi - lo]
    optional ones. *)
Definition Repeat (lo hi : nat) (r : regex) : regex :=
  Seq (Power lo r) (Power (hi - lo) (Opt r)).

End Regex.

(** ** Paths (Node's [path] module, POSIX flavour) *)

Module Path.

(** The text before the first separator, and the segments after it. *)
Fixpoint split_go (sep : ascii) (s : string) : string * list string :=
  match s with
  | EmptyString => (EmptyString, [])
  | String c r =>
      let '(seg, segs) := split_go sep r in
      if Ascii.eqb c sep then (EmptyString, seg :: segs)
      else (String c seg, segs)
  end.

(** [s.split(sep)] *)
Definition split (sep : ascii) (s : string) : list string :=
  let '(seg, segs) := split_go sep s in seg :: segs.

(** The last segment that is not empty: trailing separators are
    ignored. *)
Fixpoint last_segment (segs : list string) : string :=
  match segs with
  | [] => EmptyString
  | seg :: rest =>
      match last_segment rest with
      | EmptyString => seg
      | found => found
      end
  end.

(** [path.basename(p)] *)
Definition basename (p : string) : string := last_segment (split "/" p).

(** A name cut at its last dot: what precedes the dot, and the rest from
    the dot on. *)
Fixpoint split_last_dot (s : string) : option (string * string) :=
  match s with
  | EmptyString => None
  | String c r =>
      match split_last_dot r with
      | Some (pre, suf) => Some (String c pre, suf)
      | None =>
          if Ascii.eqb c "."%char then Some (EmptyString, String c r)
          else None
      end
  end.

(** [path.extname(p)]: from the last dot of the base name to its end;
    empty when there is no dot, when the base name starts with its only
    dot, and for "..". *)
Definition extname (p : string) : string :=
  let base := basename p in
  match split_last_dot base with
  | None => EmptyString
  | Some (EmptyString, _) => EmptyString
  | Some (_, suf) =>
      if String.eqb base ".." then EmptyString else suf
  end.

(** [path.join(dir, rel)] for a directory and a relative path that need
    no normalisation (no empty, "." or ".." segment): the two joined by
    one separator. *)
Definition join (dir rel : string) : string := dir +:+ "/" +:+ rel.

End Path.

(** ** Numbers of the admin form *)

Module Num.

Fixpoint skip_space (s : string) : string :=
  match s with
  | String c r => if Chars.is_space c then skip_space r else s
  | EmptyString => EmptyString
  end.

Definition digits_value (s : string) : option Z :=
  match Json.parse_digits s with
  | (Nil, _) => None
  | (u, _) => Some (Z.of_N (N.of_uint u))
  end.

(** [parseInt(s, 10)]: leading white space, an optional sign, then the
    digits up to the first other character; [None] is [NaN]. *)
Definition parseInt (s : string) : option Z :=
  match skip_space s with
  | String c r =>
      if Ascii.eqb c "-"%char then Z.opp <$> digits_value r
      else if Ascii.eqb c "+"%char then digits_value r
      else digits_value (String c r)
  | EmptyString => None
  end.

(** [n || d] for a number: [NaN] and zero are falsy. *)
Definition or_else (n : option Z) (d : Z) : Z :=
  match n with
  | Some z => if z =? 0 then d else z
  | None => d
  end.

End Num.

(** ** The data model *)

(** Members of an object literal; a member whose value is [undefined] is
    left out by [JSON.stringify]. *)
Module Obj.
Import Json.

Definition optional (key : string) (v : option string)
  : list (string * json) :=
  match v with
  | Some s => [(key, JStr s)]
  | None => []
  end.

Definition nullable (v : option string) : json :=
  match v with
  | Some s => JStr s
  | None => JNull
  end.

Definition num (key : string) (o : list (string * json)) : option Z :=
  match get key o with
  | Some (JNum n) => Some n
  | _ => None
  end.

Definition str (key : string) (o : list (string * json)) : option string :=
  match get key o with
  | Some (JStr s) => Some s
  | _ => None
  end.

(** A string member that may be absent ([undefined]). *)
Definition opt_str (key : string) (o : list (string * json))
  : option (option string) :=
  match get key o with
  | None => Some None
  | Some (JStr s) => Some (Some s)
  | Some _ => None
  end.

(** A string member that may be [null]. *)
Definition null_str (key : string) (o : list (string * json))
  : option (option string) :=
  match get key o with
  | Some JNull => Some None
  | Some (JStr s) => Some (Some s)
  | _ => None
  end.

(** An array read item by item. *)
Definition array {A} (item : json -> option A) (v : json)
  : option (list A) :=
  match v with
  | JArr items => mapM item items
  | _ => None
  end.

End Obj.

Module Job.
Import Json.

(** [title], [location] and [description] come from the admin form as
    they are, and are [undefined] when the form leaves them out. *)
Record t : Type := mk {
  id : Z;
  title : option string;
  location : option string;
  description : option string;
  openings : Z;
  experience : Z;
  postedAt : string
}.

Definition to_json (j : t) : json :=
  JObj ([("id", JNum (id j))]
          ++ Obj.optional "title" (title j)
          ++ Obj.optional "location" (location j)
          ++ Obj.optional "description" (description j)
          ++ [("openings", JNum (openings j));
              ("experience", JNum (experience j));
              ("postedAt", JStr (postedAt j))]).

(** The fields of a parsed object, as property access reads them. *)
Definition of_json (v : json) : option t :=
  match v with
  | JObj o =>
      i ← Obj.num "id" o;
      t ← Obj.opt_str "title" o;
      l ← Obj.opt_str "location" o;
      d ← Obj.opt_str "description" o;
      n ← Obj.num "openings" o;
      e ← Obj.num "experience" o;
      p ← Obj.str "postedAt" o;
      Some (mk i t l d n e p)
  | _ => None
  end.

End Job.

Module Application.
Import Json.

Record t : Type := mk {
  id : Z;
  jobId : Z;
  name : string;
  email : string;
  phone : string;
  cover : string;
  resume : option string;
  appliedAt : string
}.

Definition to_json (a : t) : json :=
  JObj [("id", JNum (id a));
        ("jobId", JNum (jobId a));
        ("name", JStr (name a));
        ("email", JStr (email a));
        ("phone", JStr (phone a));
        ("cover", JStr (cover a));
        ("resume", Obj.nullable (resume a));
        ("appliedAt", JStr (appliedAt a))].

Definition of_json (v : json) : option t :=
  match v with
  | JObj o =>
      i ← Obj.num "id" o;
      j ← Obj.num "jobId" o;
      n ← Obj.str "name" o;
      e ← Obj.str "email" o;
      p ← Obj.str "phone" o;
      c ← Obj.str "cover" o;
      r ← Obj.null_str "resume" o;
      t ← Obj.str "appliedAt" o;
      Some (mk i j n e p c r t)
  | _ => None
  end.

End Application.

(** ** The file system (Node's [fs] module) *)

Module Fs.

Definition existsSync (d : gmap string string) (p : string) : bool :=
  match d !! p with
  | Some _ => true
  | None => false
  end.

(** [None] stands for the exception thrown on a missing file. *)
Definition readFileSync (d : gmap string string) (p : string)
  : option string := d !! p.

Definition writeFileSync (d : gmap string string) (p data : string)
  : gmap string string := <[p := data]> d.

Definition appendFileSync (d : gmap string string) (p data : string)
  : gmap string string :=
  <[p := default EmptyString (d !! p) +:+ data]> d.

Definition unlinkSync (d : gmap string string) (p : string)
  : option (gmap string string) :=
  match d !! p with
  | Some _ => Some (delete p d)
  | None => None
  end.

(** [fs.statSync(p).size] *)
Definition statSync_size (d : gmap string string) (p : string)
  : option Z :=
  match d !! p with
  | Some content => Some (Z.of_nat (String.length content))
  | None => None
  end.

(** [try { fs.unlinkSync(p) } catch (e) { ... }] *)
Definition try_unlink (d : gmap string string) (p : string)
  : gmap string string :=
  match unlinkSync d p with
  | Some d' => d'
  | None => d
  end.

(** [if (fs.existsSync(p)) fs.unlinkSync(p)] under [try] *)
Definition unlink_if_exists (d : gmap string string) (p : string)
  : gmap string string :=
  if existsSync d p then try_unlink d p else d.

End Fs.

(** ** The server *)

(** [process.env], and [__dirname]. *)
Record Config : Type := {
  dirname : string;
  EMAILJS_SERVICE_ID : option string;
  EMAILJS_USER_ID : option string;
  EMAILJS_TEMPLATE_ID_CONFIRM : option string;
  EMAILJS_TEMPLATE_ID_REJECT : option string;
  SMTP_USER : option string
}.

(** What [console.log] and [console.error] were given. *)
Inductive ConsoleArg : Type :=
| Text (s : string)
| Params (p : list (string * option string)).

Inductive ConsoleLine : Type :=
| console_log (args : list ConsoleArg)
| console_error (args : list ConsoleArg).

(** A call of [fetch]. *)
Record FetchCall : Type := {
  fetch_url : string;
  fetch_method : string;
  fetch_headers : list (string * string);
  fetch_body : string
}.

(** How the mail API answers a call: a success status, another status with
    its body, or no answer at all ([fetch] throws; [thrown] is the error as
    [String] renders it). *)
Inductive FetchOutcome : Type :=
| FetchOk
| FetchStatus (status : Z) (text : string)
| FetchThrows (thrown : string).

(** Everything a handler can read or change: the disk, the console and
    the calls made to the network. *)
Record World : Type := {
  disk : gmap string string;
  console : list ConsoleLine;
  network : list FetchCall
}.

Definition with_disk (w : World) (d : gmap string string) : World :=
  {| disk := d; console := console w; network := network w |}.

Definition say (w : World) (line : ConsoleLine) : World :=
  {| disk := disk w; console := console w ++ [line]; network := network w |}.

Definition call (w : World) (c : FetchCall) : World :=
  {| disk := disk w; console := console w; network := network w ++ [c] |}.

(** The clock readings of one request: [Date.now()] when multer names the
    upload and when the record gets its id, [new Date().toISOString()] for
    the record and for the mail log. *)
Record Clock : Type := {
  upload_ms : Z;
  now_ms : Z;
  now_iso : string;
  log_iso : string
}.

(** The file part of a multipart form, as multer hands it to
    [fileFilter] and to the storage. *)
Record FilePart : Type := {
  originalname : string;
  mimetype : string;
  content : string
}.

(** [req.file] *)
Record ReqFile : Type := {
  path : string
}.

(** [req.body] of the apply form. *)
Record ApplyBody : Type := {
  body_name : option string;
  body_email : option string;
  body_phone : option string;
  body_cover : option string
}.

Record ApplyRequest : Type := {
  apply_id : string;
  apply_body : ApplyBody;
  apply_file : option FilePart
}.

(** [req.body] of the add-job form. *)
Record JobBody : Type := {
  body_title : option string;
  body_location : option string;
  body_description : option string;
  body_openings : option string;
  body_experience : option string
}.

(** A request to an admin route: [req.session.user] and [req.params.id]. *)
Record AdminRequest : Type := {
  session_user : option string;
  admin_id : string
}.

Record Form : Type := {
  form_name : string;
  form_email : string;
  form_phone : string;
  form_cover : string
}.

Inductive Response : Type :=
| Send (status : Z) (text : string)
| Redirect (url : string)
| RenderApply (job : Job.t) (error : string) (form : Form)
| RenderApplySuccess (job : Job.t) (application : Application.t).

Section Server.

Variable cfg : Config.

Definition uploadsDir : string := Path.join (dirname cfg) "uploads".

Definition MIN_RESUME_BYTES : Z := 50 * 1024.
Definition MAX_RESUME_BYTES : Z := 5 * 1024 * 1024.

Definition allowedMime : list string :=
  ["application/pdf";
   "application/msword";
   "application/vnd.openxmlformats-officedocument.wordprocessingml.document"].
Definition allowedExt : list string := [".pdf"; ".doc"; ".docx"].

(** [list.includes(x)] *)
Definition includes (l : list string) (x : string) : bool :=
  existsb (String.eqb x) l.

(** [storage.filename] *)
Definition filename (now : Z) (file : FilePart) : string :=
  Str.of_Z now +:+ "-" +:+ Str.collapse_ws (originalname file).

(** [upload.fileFilter]: [None] accepts the file, [Some message] is the
    error handed to the callback. *)
Definition fileFilter (file : FilePart) : option string :=
  let ext := Str.toLowerCase (Path.extname (originalname file)) in
  if includes allowedExt ext && includes allowedMime (mimetype file)
  then None
  else if includes allowedExt ext then None
  else Some "Invalid file type. Only PDF, DOC and DOCX are allowed".

(** [upload.single('resume')], multer's middleware with the disk storage
    and the size limit above: a refused file is not stored; a file over
    the limit is cut off and what was stored of it is removed; in both
    cases the callback gets an error and [req.file] stays unset.  The
    result is the disk, the message of the error and [req.file]. *)
Definition upload_single (now : Z) (part : option FilePart)
    (d : gmap string string)
  : gmap string string * option string * option ReqFile :=
  match part with
  | None => (d, None, None)
  | Some file =>
      match fileFilter file with
      | Some message => (d, Some message, None)
      | None =>
          let p := Path.join uploadsDir (filename now file) in
          if MAX_RESUME_BYTES <? Z.of_nat (String.length (content file))
          then (delete p d, Some "File too large", None)
          else (Fs.writeFileSync d p (content file), None,
                Some {| path := p |})
      end
  end.

(** *** EmailJS *)

Definition EMAILJS_URL : string :=
  "https://api.emailjs.com/api/v1.0/email/send".

Definition COMPANY_EMAIL : string :=
  Str.or_else (SMTP_USER cfg) "contact@anjanideepa.example".

Definition mailerConfigured : bool :=
  Str.truthy (EMAILJS_SERVICE_ID cfg) && Str.truthy (EMAILJS_USER_ID cfg)
  && Str.truthy (EMAILJS_TEMPLATE_ID_CONFIRM cfg)
  && Str.truthy (EMAILJS_TEMPLATE_ID_REJECT cfg).

(** The members of [templateParams] that [JSON.stringify] keeps. *)
Definition params_json (params : list (string * option string))
  : list (string * Json.json) :=
  flat_map (fun kv => Obj.optional (fst kv) (snd kv)) params.

Definition payload (templateId : option string)
    (templateParams : list (string * option string)) : Json.json :=
  Json.JObj (Obj.optional "service_id" (EMAILJS_SERVICE_ID cfg)
               ++ Obj.optional "template_id" templateId
               ++ Obj.optional "user_id" (EMAILJS_USER_ID cfg)
               ++ [("template_params",
                    Json.JObj (params_json templateParams))]).

(** [fetch(EMAILJS_URL, { method, headers, body })] *)
Definition mail_call (templateId : option string)
    (templateParams : list (string * option string)) : FetchCall :=
  {| fetch_url := EMAILJS_URL;
     fetch_method := "POST";
     fetch_headers := [("Content-Type", "application/json")];
     fetch_body := Json.stringify (payload templateId templateParams) |}.

(** The template parameters a call carries, read back from its body. *)
Definition sent_template_params (c : FetchCall)
  : option (list (string * Json.json)) :=
  match Json.parse (fetch_body c) with
  | Some (Json.JObj o) =>
      match Json.get "template_params" o with
      | Some (Json.JObj ps) => Some ps
      | _ => None
      end
  | _ => None
  end.

(** The parameters the specification lists for every send. *)
Definition listed_parameters : list string :=
  ["applicant_name"; "applicant_email"; "job_title"; "job_location";
   "phone_number"; "cover_letter"; "company_email"; "email"].

Definition carries_listed_parameters (c : FetchCall) : bool :=
  match sent_template_params c with
  | Some ps =>
      forallb (fun k => match Json.get k ps with
                        | Some _ => true
                        | None => false
                        end) listed_parameters
  | None => false
  end.

(** [templateParams[key]]: [None] when the object has no such key,
    [Some None] when it has it with the value [undefined]. *)
Fixpoint param (key : string) (params : list (string * option string))
  : option (option string) :=
  match params with
  | [] => None
  | (k, v) :: rest => if String.eqb k key then Some v else param key rest
  end.

Definition api_failure (status : Z) (text : string) : string :=
  "EmailJS API failed with status " +:+ Str.of_Z status +:+ ": " +:+ text.

(** [sendEmailJS]: the world after the call, and [None] when it returns
    or [Some e] when it throws, [e] being the error under [String]. *)
Definition sendEmailJS (net : FetchOutcome) (templateId : option string)
    (templateParams : list (string * option string)) (w : World)
  : World * option string :=
  if negb mailerConfigured then (w, Some "Error: EmailJS not configured.")
  else
    let w := call w (mail_call templateId templateParams) in
    match net with
    | FetchOk =>
        (say w (console_log [Text "EmailJS Response: Success"]), None)
    | FetchStatus status text =>
        let w := say w (console_error
                          [Text ("EmailJS Response Error ("
                                   +:+ Str.of_Z status +:+ "): " +:+ text)]) in
        let e := "Error: " +:+ api_failure status text in
        (say w (console_error [Text "EmailJS Fetch Error:"; Text e]), Some e)
    | FetchThrows e =>
        (say w (console_error [Text "EmailJS Fetch Error:"; Text e]), Some e)
    end.

(** *** The mail log *)

Definition MAIL_LOG : string :=
  Path.join (Path.join (dirname cfg) "data") "email-log.jsonl".

Definition mail_log_line (timestamp : string)
    (entry : list (string * Json.json)) : string :=
  Json.stringify (Json.JObj (("timestamp", Json.JStr timestamp) :: entry))
    +:+ String Chars.lf "".

Definition logMailAttempt (timestamp : string)
    (entry : list (string * Json.json)) (w : World) : World :=
  with_disk w (Fs.appendFileSync (disk w) MAIL_LOG
                 (mail_log_line timestamp entry)).

(** *** The two stores *)

Definition JOBS_FILE : string :=
  Path.join (Path.join (dirname cfg) "data") "jobs.json".
Definition APPS_FILE : string :=
  Path.join (Path.join (dirname cfg) "data") "applications.json".

(** A store file is read as an array of records; a file that is missing
    or is not JSON gives the empty array, as the [catch] of the source
    does, and so does, in this embedding, a file that holds anything but
    an array of such records. *)
Definition read_store {A} (item : Json.json -> option A) (file : string)
    (d : gmap string string) : list A :=
  match Fs.readFileSync d file with
  | Some raw =>
      match Json.parse raw with
      | Some v => default [] (Obj.array item v)
      | None => []
      end
  | None => []
  end.

Definition write_store {A} (item : A -> Json.json) (file : string)
    (records : list A) (d : gmap string string) : gmap string string :=
  Fs.writeFileSync d file
    (Json.stringify_pretty 2 (Json.JArr (map item records))).

Definition readJobs (d : gmap string string) : list Job.t :=
  read_store Job.of_json JOBS_FILE d.

Definition writeJobs (jobs : list Job.t) (d : gmap string string)
  : gmap string string :=
  write_store Job.to_json JOBS_FILE jobs d.

Definition readApplications (d : gmap string string)
  : list Application.t :=
  read_store Application.of_json APPS_FILE d.

Definition writeApplications (apps : list Application.t)
    (d : gmap string string) : gmap string string :=
  write_store Application.to_json APPS_FILE apps d.

(** *** Shared pieces of the handlers *)

(** [String(record.id) === String(req.params.id)] *)
Definition same_id (id : Z) (param : string) : bool :=
  String.eqb (Str.of_Z id) param.

(** [array.findIndex(p)]; [None] is -1. *)
Fixpoint findIndex {A} (p : A -> bool) (l : list A) : option nat :=
  match l with
  | [] => None
  | x :: rest => if p x then Some O else S <$> findIndex p rest
  end.

(** The file a stored [resume] reference names: leading slashes
    dropped, both kinds of separator turned into [path.sep], and the
    result joined to [__dirname]. *)
Definition resume_full_path (resume : string) : string :=
  let resumePath := Str.strip_leading_slashes resume in
  let resumePath :=
    Str.replace_char "\" "/" (Str.replace_char "/" "/" resumePath) in
  Path.join (dirname cfg) resumePath.

(** [if (app.resume) { ... if (fs.existsSync(full)) fs.unlinkSync(full) }] *)
Definition remove_resume (resume : option string)
    (d : gmap string string) : gmap string string :=
  if Str.truthy resume
  then Fs.unlink_if_exists d (resume_full_path (Str.or_else resume ""))
  else d.

(** The [forEach] of the two delete handlers: the resume file of every
    record that matches is removed, the other records are pushed on
    [remaining]. *)
Definition sweep (matches : Application.t -> bool)
    (apps : list Application.t) (d : gmap string string)
  : gmap string string * list Application.t :=
  fold_left
    (fun (acc : gmap string string * list Application.t) app =>
       if matches app
       then (remove_resume (Application.resume app) (fst acc), snd acc)
       else (fst acc, snd acc ++ [app]))
    apps (d, []).

(** The disk that [sweep] leaves. *)
Definition swept (matches : Application.t -> bool)
    (apps : list Application.t) (d : gmap string string)
  : gmap string string :=
  fold_left
    (fun d app =>
       if matches app then remove_resume (Application.resume app) d
       else d)
    apps d.

(** *** POST /jobs/:id/apply *)

(** [/^[^\s@]+@[^\s@]+\.[^\s@]+$/] *)
Definition emailRe : Regex.regex :=
  let word :=
    Regex.Plus
      (Regex.Class (fun c => negb (Chars.is_space c || Ascii.eqb c "@"%char)))
  in
  Regex.Seq word
    (Regex.Seq (Regex.Char "@"%char)
       (Regex.Seq word (Regex.Seq (Regex.Char "."%char) word))).

(** [/^[0-9+\-\s]{7,20}$/] *)
Definition phoneRe : Regex.regex :=
  Regex.Repeat 7 20
    (Regex.Class (fun c => Chars.is_digit c || Ascii.eqb c "+"%char
                           || Ascii.eqb c "-"%char || Chars.is_space c)).

(** [if (req.file && req.file.path && fs.existsSync(req.file.path))
    fs.unlinkSync(req.file.path)] under [try] *)
Definition remove_upload (file : option ReqFile)
    (d : gmap string string) : gmap string string :=
  match file with
  | Some f =>
      if Str.truthy (Some (path f)) && Fs.existsSync d (path f)
      then Fs.try_unlink d (path f)
      else d
  | None => d
  end.

(** [{ name: name || '', email: email || '', phone: phone || '',
    cover: cover || '' }] *)
Definition submitted_form (body : ApplyBody) : Form :=
  {| form_name := Str.or_else (body_name body) "";
     form_email := Str.or_else (body_email body) "";
     form_phone := Str.or_else (body_phone body) "";
     form_cover := Str.or_else (body_cover body) "" |}.

Definition confirm_params (job : Job.t) (name email phone cover : string)
  : list (string * option string) :=
  [("applicant_name", Some name);
   ("applicant_email", Some email);
   ("job_title", Job.title job);
   ("job_location", Job.location job);
   ("phone_number", Some phone);
   ("cover_letter", Some cover);
   ("company_email", Some COMPANY_EMAIL);
   ("email", Some email)].

(** The confirmation, sent or only logged. *)
Definition notify_confirmation (clk : Clock) (net : FetchOutcome)
    (job : Job.t) (application : Application.t)
    (templateParams : list (string * option string)) (w : World) : World :=
  let to := Application.email application in
  let subject :=
    "Application Received: " +:+ Str.interpolate (Job.title job) in
  if mailerConfigured then
    match sendEmailJS net (EMAILJS_TEMPLATE_ID_CONFIRM cfg) templateParams w with
    | (w, None) =>
        let w := say w (console_log [Text "Confirmation email sent to";
                                     Text to; Text "via EmailJS"]) in
        logMailAttempt (log_iso clk)
          [("to", Json.JStr to); ("subject", Json.JStr subject);
           ("sent", Json.JBool true); ("note", Json.JStr "EmailJS")] w
    | (w, Some err) =>
        let w := say w (console_error
                          [Text "Error sending email via EmailJS API";
                           Text err]) in
        logMailAttempt (log_iso clk)
          [("to", Json.JStr to); ("subject", Json.JStr subject);
           ("sent", Json.JBool false); ("error", Json.JStr err)] w
    end
  else
    let w := say w (console_log [Text "Email (not sent) would be:";
                                 Params templateParams]) in
    logMailAttempt (log_iso clk)
      [("to", Json.JStr to); ("subject", Json.JStr subject);
       ("sent", Json.JBool false);
       ("note", Json.JStr "EmailJS not configured")] w.

(** The callback given to [upload.single('resume')]: [err] is the error
    multer reports and [file] is [req.file]. *)
Definition apply_callback (clk : Clock) (net : FetchOutcome)
    (req : ApplyRequest) (err : option string) (file : option ReqFile)
    (w : World) : World * Response :=
  let jobs := readJobs (disk w) in
  match List.find (fun j => same_id (Job.id j) (apply_id req)) jobs with
  | None => (w, Send 404 "Job not found")
  | Some job =>
      let body := apply_body req in
      let form := submitted_form body in
      match err with
      | Some message =>
          (with_disk w (remove_upload file (disk w)),
           RenderApply job (Str.or_else (Some message) "File upload error")
             form)
      | None =>
          if negb (Str.truthy (body_name body))
             || negb (Str.truthy (body_email body))
             || negb (Str.truthy (body_phone body))
             || negb (Str.truthy (body_cover body))
          then (with_disk w (remove_upload file (disk w)),
                RenderApply job "All fields are required" form)
          else if negb (Regex.test emailRe (form_email form))
          then (with_disk w (remove_upload file (disk w)),
                RenderApply job "Please enter a valid email address" form)
          else if negb (Regex.test phoneRe (form_phone form))
          then (with_disk w (remove_upload file (disk w)),
                RenderApply job "Please enter a valid phone number" form)
          else
            match file with
            | None =>
                (w, RenderApply job
                      "Resume is required and must be PDF/DOC/DOCX within size limits"
                      form)
            | Some f =>
                match Fs.statSync_size (disk w) (path f) with
                | None =>
                    (w, RenderApply job "Could not process resume file" form)
                | Some size =>
                    if size <? MIN_RESUME_BYTES
                    then (with_disk w (Fs.try_unlink (disk w) (path f)),
                          RenderApply job
                            "Resume file is too small (min 50 KB)" form)
                    else
                      let apps := readApplications (disk w) in
                      let application :=
                        {| Application.id := now_ms clk;
                           Application.jobId := Job.id job;
                           Application.name := form_name form;
                           Application.email := form_email form;
                           Application.phone := form_phone form;
                           Application.cover := form_cover form;
                           Application.resume :=
                             Some ("/uploads/" +:+ Path.basename (path f));
                           Application.appliedAt := now_iso clk |} in
                      let w :=
                        with_disk w
                          (writeApplications (apps ++ [application])
                             (disk w)) in
                      let templateParams :=
                        confirm_params job (form_name form)
                          (form_email form) (form_phone form)
                          (form_cover form) in
                      let w :=
                        notify_confirmation clk net job application
                          templateParams w in
                      (w, RenderApplySuccess job application)
                end
            end
      end
  end.

(** A submission that fails a check of the callback: [err] is what
    multer reported and [data] is the content of the saved file. *)
Definition fails_validation (req : ApplyRequest) (err : option string)
    (data : string) : Prop :=
  err <> None
  \/ Str.truthy (body_name (apply_body req)) = false
  \/ Str.truthy (body_email (apply_body req)) = false
  \/ Str.truthy (body_phone (apply_body req)) = false
  \/ Str.truthy (body_cover (apply_body req)) = false
  \/ Regex.test emailRe (form_email (submitted_form (apply_body req))) = false
  \/ Regex.test phoneRe (form_phone (submitted_form (apply_body req))) = false
  \/ Z.of_nat (String.length data) < MIN_RESUME_BYTES.

(** A submission that passes every check of the callback, with a
    resume of content [data]. *)
Definition passes_validation (req : ApplyRequest) (data : string) : Prop :=
  Str.truthy (body_name (apply_body req)) = true
  /\ Str.truthy (body_email (apply_body req)) = true
  /\ Str.truthy (body_phone (apply_body req)) = true
  /\ Str.truthy (body_cover (apply_body req)) = true
  /\ Regex.test emailRe (form_email (submitted_form (apply_body req))) = true
  /\ Regex.test phoneRe (form_phone (submitted_form (apply_body req))) = true
  /\ MIN_RESUME_BYTES <= Z.of_nat (String.length data).

(** The record the callback stores for such a submission, the resume
    being saved at [p]. *)
Definition new_application (clk : Clock) (job : Job.t) (body : ApplyBody)
    (p : string) : Application.t :=
  let form := submitted_form body in
  {| Application.id := now_ms clk;
     Application.jobId := Job.id job;
     Application.name := form_name form;
     Application.email := form_email form;
     Application.phone := form_phone form;
     Application.cover := form_cover form;
     Application.resume := Some ("/uploads/" +:+ Path.basename p);
     Application.appliedAt := now_iso clk |}.

Definition post_jobs_apply (clk : Clock) (net : FetchOutcome)
    (req : ApplyRequest) (w : World) : World * Response :=
  let '(d, err, file) :=
    upload_single (upload_ms clk) (apply_file req) (disk w) in
  apply_callback clk net req err file (with_disk w d).

(** *** POST /admin/jobs *)

Definition post_admin_jobs (clk : Clock) (user : option string)
    (body : JobBody) (w : World) : World * Response :=
  match user with
  | None => (w, Send 403 "Forbidden")
  | Some _ =>
      let jobs := readJobs (disk w) in
      let id := now_ms clk in
      let openingsNum :=
        Z.max 1 (Num.or_else
                   (Num.parseInt (Str.or_else (body_openings body) "1")) 1) in
      let expNum :=
        Z.max 0 (Z.min 50
                   (Num.or_else
                      (Num.parseInt (Str.or_else (body_experience body) "0"))
                      0)) in
      let job := {| Job.id := id;
                    Job.title := body_title body;
                    Job.location := body_location body;
                    Job.description := body_description body;
                    Job.openings := openingsNum;
                    Job.experience := expNum;
                    Job.postedAt := now_iso clk |} in
      (with_disk w (writeJobs (jobs ++ [job]) (disk w)), Redirect "/admin")
  end.

(** *** POST /admin/jobs/:id/delete *)

Definition post_admin_jobs_delete (req : AdminRequest) (w : World)
  : World * Response :=
  match session_user req with
  | None => (w, Send 403 "Forbidden")
  | Some _ =>
      let jobs := readJobs (disk w) in
      let id := admin_id req in
      let filtered :=
        List.filter (fun j => negb (same_id (Job.id j) id)) jobs in
      let w := with_disk w (writeJobs filtered (disk w)) in
      let after := readJobs (disk w) in
      let stillExists := existsb (fun j => same_id (Job.id j) id) after in
      if stillExists
      then (say w (console_error [Text "Failed to delete job"; Text id]),
            Send 500 "Failed to delete job")
      else
        let apps := readApplications (disk w) in
        let '(d, remaining) :=
          sweep (fun app => same_id (Application.jobId app) id) apps
            (disk w) in
        (with_disk w (writeApplications remaining d), Redirect "/admin")
  end.

(** *** POST /admin/applications/:id/delete *)

Definition post_admin_applications_delete (req : AdminRequest) (w : World)
  : World * Response :=
  match session_user req with
  | None => (w, Send 403 "Forbidden")
  | Some _ =>
      let id := admin_id req in
      let apps := readApplications (disk w) in
      let '(d, remaining) :=
        sweep (fun app => same_id (Application.id app) id) apps (disk w) in
      (with_disk w (writeApplications remaining d), Redirect "/admin")
  end.

(** *** POST /admin/applications/:id/reject *)

(** The title the rejection names: that of the job the application
    refers to ([j.id === application.jobId]), or "a job" when the store
    has no such job. *)
Definition rejected_title (jobs : list Job.t)
    (application : Application.t) : option string :=
  match List.find (fun j => Job.id j =? Application.jobId application)
          jobs with
  | Some job => Job.title job
  | None => Some "a job"
  end.

Definition reject_params (application : Application.t)
    (jobTitle : option string) : list (string * option string) :=
  [("applicant_name", Some (Application.name application));
   ("applicant_email", Some (Application.email application));
   ("job_title", jobTitle);
   ("company_email", Some COMPANY_EMAIL);
   ("email", Some (Application.email application))].

(** The rejection, sent or only logged. *)
Definition notify_rejection (clk : Clock) (net : FetchOutcome)
    (application : Application.t) (jobTitle : option string)
    (templateParams : list (string * option string)) (w : World) : World :=
  let to := Application.email application in
  let subject :=
    "Update on Application for " +:+ Str.interpolate jobTitle in
  if mailerConfigured then
    match sendEmailJS net (EMAILJS_TEMPLATE_ID_REJECT cfg) templateParams w with
    | (w, None) =>
        let w := say w (console_log [Text "Rejection email sent to";
                                     Text to; Text "via EmailJS"]) in
        logMailAttempt (log_iso clk)
          [("to", Json.JStr to); ("subject", Json.JStr subject);
           ("sent", Json.JBool true);
           ("note", Json.JStr "EmailJS Rejection")] w
    | (w, Some err) =>
        let w := say w (console_error
                          [Text "Error sending rejection email via EmailJS API";
                           Text err]) in
        logMailAttempt (log_iso clk)
          [("to", Json.JStr to); ("subject", Json.JStr subject);
           ("sent", Json.JBool false);
           ("note", Json.JStr "EmailJS Rejection error")] w
    end
  else
    let w := say w (console_log
                      [Text "Rejection email (not sent, EmailJS not configured) would be:";
                       Params templateParams]) in
    logMailAttempt (log_iso clk)
      [("to", Json.JStr to); ("subject", Json.JStr subject);
       ("sent", Json.JBool false);
       ("note", Json.JStr "Rejection - not configured")] w.

Definition post_admin_applications_reject (clk : Clock)
    (net : FetchOutcome) (req : AdminRequest) (w : World)
  : World * Response :=
  match session_user req with
  | None => (w, Send 403 "Forbidden")
  | Some _ =>
      let id := admin_id req in
      let apps := readApplications (disk w) in
      let jobs := readJobs (disk w) in
      match findIndex (fun app => same_id (Application.id app) id) apps with
      | None =>
          (say w (console_error
                    [Text "Application not found for rejection:"; Text id]),
           Redirect "/admin")
      | Some appIndex =>
          match apps !! appIndex with
          | None =>
              (say w (console_error
                        [Text "Error processing application rejection:";
                         Text id]),
               Redirect "/admin")
          | Some applicationToReject =>
              let jobTitle := rejected_title jobs applicationToReject in
              let templateParams :=
                reject_params applicationToReject jobTitle in
              let w :=
                notify_rejection clk net applicationToReject jobTitle
                  templateParams w in
              let remainingApps := delete appIndex apps in
              let d :=
                remove_resume (Application.resume applicationToReject)
                  (disk w) in
              let w := with_disk w (writeApplications remainingApps d) in
              (say w (console_log
                        [Text "Application rejected and deleted:"; Text id]),
               Redirect "/admin")
          end
      end
  end.

End Server.

(** ** The pages and the admin session *)

(** [ADMIN_USER]: the two credentials, as the environment gives them. *)
Record AdminUser : Type := {
  ADMIN_USERNAME : option string;
  ADMIN_PASSWORD : option string
}.

(** The object [{ username }] that a login stores in [req.session.user]. *)
Record SessionUser : Type := {
  username : option string
}.

(** [req.body] of the login form: each field is a string, or absent.  A
    field sent twice, which the body parser turns into an array, is not
    modelled. *)
Record LoginBody : Type := {
  login_username : option string;
  login_password : option string
}.

(** What the routes that only read answer with: a status and a text, a
    redirect, or a view with its locals. *)
Inductive Page : Type :=
| PageSend (status : Z) (text : string)
| PageRedirect (url : string)
| RenderHome (jobs : list Job.t)
| RenderAbout
| RenderJobs (jobs : list Job.t)
| RenderApplyForm (job : Job.t)
| RenderContact
| RenderAdminLogin (error : option string)
    (applications : option (list Application.t))
| RenderAdmin (jobs : list Job.t) (applications : list Application.t).

(** [a === b] on two values that are a string or [undefined]. *)
Definition strict_eq (a b : option string) : bool :=
  match a, b with
  | Some x, Some y => String.eqb x y
  | None, None => true
  | _, _ => false
  end.

Section Pages.

Variable cfg : Config.

(** GET / *)
Definition get_home (d : gmap string string) : Page :=
  RenderHome (readJobs cfg d).

(** GET /about *)
Definition get_about : Page := RenderAbout.

(** GET /jobs *)
Definition get_jobs (d : gmap string string) : Page :=
  RenderJobs (readJobs cfg d).

(** GET /jobs/:id/apply *)
Definition get_jobs_apply (id : string) (d : gmap string string) : Page :=
  let jobs := readJobs cfg d in
  match List.find (fun j => same_id (Job.id j) id) jobs with
  | None => PageSend 404 "Job not found"
  | Some job => RenderApplyForm job
  end.

(** GET /contact *)
Definition get_contact : Page := RenderContact.

(** GET /admin *)
Definition get_admin (session : option SessionUser)
    (d : gmap string string) : Page :=
  match session with
  | None => RenderAdminLogin None (Some [])
  | Some _ => RenderAdmin (readJobs cfg d) (readApplications cfg d)
  end.

(** POST /admin/login: the session after the request, and the answer. *)
Definition post_admin_login (admin : AdminUser) (body : LoginBody)
    (session : option SessionUser) : option SessionUser * Page :=
  if strict_eq (login_username body) (ADMIN_USERNAME admin)
     && strict_eq (login_password body) (ADMIN_PASSWORD admin)
  then (Some {| username := login_username body |}, PageRedirect "/admin")
  else (session, RenderAdminLogin (Some "Invalid credentials") None).

(** POST /admin/logout *)
Definition post_admin_logout (session : option SessionUser)
  : option SessionUser * Page :=
  (None, PageRedirect "/").


End Pages.

(** ** What the patterns and the names mean *)

Module Spec.

(** Every character of a string passes a test. *)
Fixpoint all (p : ascii -> bool) (s : string) : bool :=
  match s with
  | EmptyString => true
  | String c r => p c && all p r
  end.

(** The strings a regular expression stands for. *)
Inductive matches : Regex.regex -> string -> Prop :=
| matches_eps : matches Regex.Eps EmptyString
| matches_class p c : p c = true -> matches (Regex.Class p) (String c EmptyString)
| matches_seq r1 r2 s1 s2 :
    matches r1 s1 -> matches r2 s2 -> matches (Regex.Seq r1 r2) (s1 +:+ s2)
| matches_alt_l r1 r2 s : matches r1 s -> matches (Regex.Alt r1 r2) s
| matches_alt_r r1 r2 s : matches r2 s -> matches (Regex.Alt r1 r2) s
| matches_star_nil r : matches (Regex.Star r) EmptyString
| matches_star_cons r s1 s2 :
    matches r s1 -> matches (Regex.Star r) s2 ->
    matches (Regex.Star r) (s1 +:+ s2).

(** The characters of [[^\s@]] and of [[0-9+\-\s]]. *)
Definition word_char (c : ascii) : bool :=
  negb (Chars.is_space c || Ascii.eqb c "@"%char).
Definition phone_char (c : ascii) : bool :=
  Chars.is_digit c || Ascii.eqb c "+"%char || Ascii.eqb c "-"%char
  || Chars.is_space c.

(** A non-empty run of word characters. *)
Definition word (s : string) : Prop := s <> EmptyString /\ all word_char s = true.

(** A file name as multer hands it over: the directories the client
    sent are gone, so it holds neither kind of separator. *)
Definition plain_name (s : string) : bool :=
  all (fun c => negb (Ascii.eqb c "/"%char || Ascii.eqb c "\"%char)) s.

(** A resume reference as the apply handler writes it. *)
Definition upload_reference (r : string) : Prop :=
  exists n, r = "/uploads/" +:+ n /\ n <> EmptyString /\ plain_name n = true.

(** Every resume reference of a list of applications is of that kind. *)
Definition well_referenced (apps : list Application.t) : Prop :=
  forall a r, a ∈ apps -> Application.resume a = Some r -> upload_reference r.

(** The mail API answered with a success status. *)
Definition fetch_ok (net : FetchOutcome) : bool :=
  match net with
  | FetchOk => true
  | _ => false
  end.

(** No white space in a string. *)
Definition spaceless (s : string) : bool :=
  all (fun c => negb (Chars.is_space c)) s.

(** Neither a dot nor a slash in a string. *)
Definition dotless (s : string) : bool :=
  all (fun c => negb (Ascii.eqb c "."%char || Ascii.eqb c "/"%char)) s.

(** No slash in a string. *)
Definition slashless (s : string) : bool :=
  all (fun c => negb (Ascii.eqb c "/"%char)) s.


End Spec.

(** ** A small installation, for the examples *)

Module Demo.

Definition plain : Config :=
  {| dirname := "/srv/site";
     EMAILJS_SERVICE_ID := None;
     EMAILJS_USER_ID := None;
     EMAILJS_TEMPLATE_ID_CONFIRM := None;
     EMAILJS_TEMPLATE_ID_REJECT := None;
     SMTP_USER := None |}.

Definition mailing : Config :=
  {| dirname := "/srv/site";
     EMAILJS_SERVICE_ID := Some "service_1";
     EMAILJS_USER_ID := Some "user_1";
     EMAILJS_TEMPLATE_ID_CONFIRM := Some "welcome";
     EMAILJS_TEMPLATE_ID_REJECT := Some "auto_reply";
     SMTP_USER := Some "hr@anjanideepa.example" |}.

Definition welder : Job.t :=
  {| Job.id := 17;
     Job.title := Some "Welder";
     Job.location := Some "Pune";
     Job.description := Some "Arc welding";
     Job.openings := 2;
     Job.experience := 3;
     Job.postedAt := "2024-01-01T00:00:00.000Z" |}.

Definition asha : Application.t :=
  {| Application.id := 1001;
     Application.jobId := 17;
     Application.name := "Asha";
     Application.email := "asha@example.com";
     Application.phone := "+91 98765 43210";
     Application.cover := "Hello";
     Application.resume := Some "/uploads/1000-cv.pdf";
     Application.appliedAt := "2024-02-01T00:00:00.000Z" |}.

Definition ravi : Application.t :=
  {| Application.id := 1002;
     Application.jobId := 18;
     Application.name := "Ravi";
     Application.email := "ravi@example.com";
     Application.phone := "98765 43210";
     Application.cover := "Hi";
     Application.resume := Some "/uploads/1001-ravi.doc";
     Application.appliedAt := "2024-02-02T00:00:00.000Z" |}.

(** One job, two applications and their two resumes on the disk. *)
Definition world (cfg : Config) : World :=
  {| disk :=
       writeApplications cfg [asha; ravi]
         (writeJobs cfg [welder]
            (<["/srv/site/uploads/1000-cv.pdf" := "%PDF-1.4"]>
               (<["/srv/site/uploads/1001-ravi.doc" := "doc"]> ∅)));
     console := [];
     network := [] |}.

Definition clock : Clock :=
  {| upload_ms := 2000;
     now_ms := 2001;
     now_iso := "2024-03-01T00:00:00.000Z";
     log_iso := "2024-03-01T00:00:01.000Z" |}.

Definition body : ApplyBody :=
  {| body_name := Some "Meena";
     body_email := Some "meena@example.com";
     body_phone := Some "+91 91234 56789";
     body_cover := Some "I weld." |}.

(** A resume of four bytes. *)
Definition tiny : FilePart :=
  {| originalname := "cv.pdf";
     mimetype := "application/pdf";
     content := "tiny" |}.

(** A resume of exactly the minimum size. *)
Definition resume : FilePart :=
  {| originalname := "Meena CV.docx";
     mimetype := "application/octet-stream";
     content := Str.repeat "x" (50 * 1024)%nat |}.

End Demo.

(* ===== Properties ===== *)

(** ** Strings *)

Section StringFacts.

Lemma app_empty_r (s : string) : s +:+ "" = s.
Proof. induction s as [|c s IH]; simpl; [done | by rewrite IH]. Qed.

Lemma app_assoc_str (a b c : string) : (a +:+ b) +:+ c = a +:+ b +:+ c.
Proof. induction a as [|x a IH]; simpl; [done | by rewrite IH]. Qed.

Lemma length_app_str (a b : string) :
  String.length (a +:+ b) = (String.length a + String.length b)%nat.
Proof. induction a as [|x a IH]; simpl; [done | by rewrite IH]. Qed.

End StringFacts.

(** ** JSON: what is written is what is read *)

Module JsonFacts.
Import Json.

Lemma skip_ws_blank (w s : string) :
  blank w = true -> skip_ws (w +:+ s) = skip_ws s.
Proof.
  induction w as [|c w IH]; simpl; [done |].
  intros [Hc Hw]%andb_true_iff. rewrite Hc. auto.
Qed.

Lemma blank_spaces n : blank (spaces n) = true.
Proof. induction n; simpl; auto. Qed.

Lemma blank_newline gap cur : blank (newline gap cur) = true.
Proof. destruct gap; simpl; [done |]. apply blank_spaces. Qed.

Lemma skip_ws_newline gap cur s :
  skip_ws (newline gap cur +:+ s) = skip_ws s.
Proof. apply skip_ws_blank, blank_newline. Qed.

(** *** String literals *)

Lemma parse_chars_escape_char c (r : string) :
  parse_chars (escape_char c +:+ r) = push c (parse_chars r).
Proof. destruct c as [[] [] [] [] [] [] [] []]; reflexivity. Qed.

Lemma parse_chars_escape (s rest : string) :
  parse_chars (escape s +:+ String Chars.dquote rest) = Some (s, rest).
Proof.
  induction s as [|c s IH]; [reflexivity |].
  cbn [escape]. rewrite app_assoc_str, parse_chars_escape_char, IH.
  reflexivity.
Qed.

(** *** Numbers *)

Lemma digit_of_char_not_digit c :
  Chars.is_digit c = false -> digit_of_char c = None.
Proof. destruct c as [[] [] [] [] [] [] [] []]; simpl; congruence. Qed.

Lemma parse_digits_stop (rest : string) :
  continues_number rest = false -> parse_digits rest = (Nil, rest).
Proof.
  destruct rest as [|c r]; simpl; [done |].
  intros H. repeat apply orb_false_elim in H as [H _].
  by rewrite digit_of_char_not_digit.
Qed.

Lemma parse_digits_app (u : uint) (rest : string) :
  continues_number rest = false ->
  parse_digits (NilEmpty.string_of_uint u +:+ rest) = (u, rest).
Proof.
  intros Hrest.
  induction u; simpl; rewrite ?IHu; auto using parse_digits_stop.
Qed.

(** A decimal numeral without a leading zero. *)
Lemma unorm_D0 d x : unorm d = D0 x -> x = Nil.
Proof. induction d; cbn; intros H; try congruence; auto. Qed.

Lemma to_uint_unorm p : unorm (Pos.to_uint p) = Pos.to_uint p.
Proof.
  rewrite <- (DecimalPos.Unsigned.to_of (Pos.to_uint p)).
  by rewrite DecimalPos.Unsigned.of_to.
Qed.

Lemma to_uint_no_leading_zero p d : Pos.to_uint p <> D0 d.
Proof.
  intros H. pose proof (to_uint_unorm p) as Hn. rewrite H in Hn.
  simpl in Hn. apply unorm_D0 in Hn as ->.
  by apply (DecimalPos.Unsigned.to_uint_nonzero p).
Qed.

Lemma parse_unsigned_to_uint p (rest : string) :
  continues_number rest = false ->
  parse_unsigned (NilEmpty.string_of_uint (Pos.to_uint p) +:+ rest)
  = Some (Pos.to_uint p, rest).
Proof.
  intros Hrest. unfold parse_unsigned.
  rewrite parse_digits_app by done.
  pose proof (DecimalPos.Unsigned.to_uint_nonnil p) as Hnil.
  pose proof (to_uint_no_leading_zero p) as Hz.
  destruct (Pos.to_uint p) as [|d| | | | | | | | |]; try by rewrite Hrest.
  - done.
  - by destruct (Hz d).
Qed.

Lemma string_of_uint_to_uint p :
  NilZero.string_of_uint (Pos.to_uint p)
  = NilEmpty.string_of_uint (Pos.to_uint p).
Proof.
  pose proof (DecimalPos.Unsigned.to_uint_nonnil p).
  by destruct (Pos.to_uint p).
Qed.

Lemma to_uint_starts_with_digit p :
  exists c r, NilEmpty.string_of_uint (Pos.to_uint p) = String c r
              /\ Ascii.eqb c "-"%char = false.
Proof.
  pose proof (DecimalPos.Unsigned.to_uint_nonnil p).
  destruct (Pos.to_uint p); [done | simpl; eauto ..].
Qed.

Lemma parse_number_of_Z (n : Z) (rest : string) :
  continues_number rest = false ->
  parse_number (Str.of_Z n +:+ rest) = Some (JNum n, rest).
Proof.
  intros Hrest. unfold Str.of_Z.
  destruct n as [|p|p]; simpl.
  - unfold parse_unsigned. simpl. rewrite parse_digits_stop by done.
    by rewrite Hrest.
  - rewrite string_of_uint_to_uint.
    destruct (to_uint_starts_with_digit p) as (c & r & Hs & Hc).
    pose proof (parse_unsigned_to_uint p rest Hrest) as Hp.
    rewrite Hs in *. simpl. simpl in Hp. rewrite Hc, Hp.
    do 3 f_equal. apply (DecimalZ.of_to (Z.pos p)).
  - rewrite string_of_uint_to_uint, parse_unsigned_to_uint by done.
    do 3 f_equal. apply (DecimalZ.of_to (Z.neg p)).
Qed.

(** *** Values *)

Lemma parse_value_blank fuel (w s : string) :
  blank w = true -> parse_value fuel (w +:+ s) = parse_value fuel s.
Proof. intros Hw. destruct fuel; simpl; [done |]. by rewrite skip_ws_blank. Qed.

Lemma parse_items_blank fuel (w s : string) :
  blank w = true -> parse_items fuel (w +:+ s) = parse_items fuel s.
Proof.
  intros Hw. destruct fuel; simpl; [done |]. by rewrite parse_value_blank.
Qed.

Lemma parse_members_blank fuel (w s : string) :
  blank w = true -> parse_members fuel (w +:+ s) = parse_members fuel s.
Proof. intros Hw. destruct fuel; simpl; [done |]. by rewrite skip_ws_blank. Qed.

Lemma of_Z_head n :
  exists c r, Str.of_Z n = String c r
              /\ (Chars.is_digit c || Ascii.eqb c "-"%char) = true.
Proof.
  unfold Str.of_Z. destruct n as [|p|p]; simpl; [by eauto | | by eauto].
  rewrite string_of_uint_to_uint.
  pose proof (DecimalPos.Unsigned.to_uint_nonnil p).
  destruct (Pos.to_uint p); [done | simpl; eauto ..].
Qed.

Lemma parse_value_number f c (r : string) :
  (Chars.is_digit c || Ascii.eqb c "-"%char) = true ->
  parse_value (S f) (String c r) = parse_number (String c r).
Proof.
  destruct c as [[] [] [] [] [] [] [] []]; intros H; vm_compute in H;
    (discriminate H || reflexivity).
Qed.

Lemma number_opens c :
  (Chars.is_digit c || Ascii.eqb c "-"%char) = true -> opens_value c = true.
Proof.
  destruct c as [[] [] [] [] [] [] [] []]; intros H; vm_compute in H;
    (discriminate H || reflexivity).
Qed.

Lemma stringify_arr gap cur x l :
  stringify_at gap cur (JArr (x :: l))
  = "[" +:+ newline gap (cur + gap)
        +:+ String.concat (separator gap (cur + gap))
              (map (stringify_at gap (cur + gap)) (x :: l))
        +:+ newline gap cur +:+ "]".
Proof. reflexivity. Qed.

Lemma stringify_obj gap cur kv l :
  stringify_at gap cur (JObj (kv :: l))
  = "{" +:+ newline gap (cur + gap)
        +:+ String.concat (separator gap (cur + gap))
              (map (member_text gap (cur + gap)) (kv :: l))
        +:+ newline gap cur +:+ "}".
Proof. reflexivity. Qed.

Lemma stringify_head v gap cur :
  exists c r, stringify_at gap cur v = String c r /\ opens_value c = true.
Proof.
  destruct v as [|[]|n|s|[|x l]|[|kv l]];
    try (by eexists _, _; split; [reflexivity | reflexivity]).
  destruct (of_Z_head n) as (c & r & Hs & Hc).
  exists c, r. split; [done | by apply number_opens].
Qed.

Lemma parse_items_S f (s : string) :
  parse_items (S f) s
  = match parse_value f s with
    | Some (v, r) =>
        match skip_ws r with
        | String c r' =>
            if Ascii.eqb c ","%char then
              match parse_items f r' with
              | Some (vs, rest) => Some (v :: vs, rest)
              | None => None
              end
            else if Ascii.eqb c "]"%char then Some ([v], r')
            else None
        | EmptyString => None
        end
    | None => None
    end.
Proof. reflexivity. Qed.

Lemma parse_members_S f (body : string) :
  parse_members (S f) (String Chars.dquote body)
  = match parse_chars body with
    | Some (key, r1) =>
        match skip_ws r1 with
        | String c1 r2 =>
            if Ascii.eqb c1 ":"%char then
              match parse_value f r2 with
              | Some (v, r3) =>
                  match skip_ws r3 with
                  | String c r' =>
                      if Ascii.eqb c ","%char then
                        match parse_members f r' with
                        | Some (ms, rest) => Some ((key, v) :: ms, rest)
                        | None => None
                        end
                      else if Ascii.eqb c "}"%char
                           then Some ([(key, v)], r')
                      else None
                  | EmptyString => None
                  end
              | None => None
              end
            else None
        | EmptyString => None
        end
    | None => None
    end.
Proof. reflexivity. Qed.

Lemma continues_newline gap cur c (rest : string) :
  Json.continues_number (String c rest) = false ->
  Json.continues_number (newline gap cur +:+ String c rest) = false.
Proof. destruct gap; simpl; auto. Qed.

Lemma skip_colon gap (s : string) :
  exists w, blank w = true
            /\ skip_ws (colon gap +:+ s) = String ":" (w +:+ s).
Proof.
  destruct gap; [by exists "" | by exists " "].
Qed.

Lemma reads_items_step f :
  reads_values f -> reads_items f -> reads_items (S f).
Proof.
  intros Hv Hi l gap cur cur' rest Hl Hw.
  destruct l as [|x l]; [done |]. clear Hl. simpl in Hw.
  rewrite parse_items_S.
  destruct l as [|y l].
  - cbn [map String.concat].
    rewrite (Hv x gap cur) by (first [lia | by apply continues_newline]).
    rewrite skip_ws_newline. reflexivity.
  - change (String.concat ?sep (map ?g (x :: y :: l)))
      with (g x +:+ sep +:+ String.concat sep (map g (y :: l))).
    rewrite !app_assoc_str.
    rewrite (Hv x gap cur) by (first [lia | reflexivity]).
    unfold separator at 1. cbn [String.append skip_ws Chars.is_json_ws].
    cbn [Ascii.eqb Bool.eqb].
    rewrite parse_items_blank by apply blank_newline.
    rewrite Hi; [done | done | simpl in *; lia].
Qed.

Lemma quote_app (k rest : string) :
  quote k +:+ rest
  = String Chars.dquote (escape k +:+ String Chars.dquote rest).
Proof. unfold quote. simpl. by rewrite app_assoc_str. Qed.

Lemma parse_member_head f gap cur k v (tail : string) :
  reads_values f -> (weight v <= f)%nat ->
  continues_number tail = false ->
  parse_members (S f) (member_text gap cur (k, v) +:+ tail)
  = match skip_ws tail with
    | String c r' =>
        if Ascii.eqb c ","%char then
          match parse_members f r' with
          | Some (ms, rest) => Some ((k, v) :: ms, rest)
          | None => None
          end
        else if Ascii.eqb c "}"%char then Some ([(k, v)], r')
        else None
    | EmptyString => None
    end.
Proof.
  intros Hv Hw Htail. unfold member_text. cbn [fst snd].
  rewrite !app_assoc_str, quote_app, parse_members_S, parse_chars_escape.
  destruct (skip_colon gap (stringify_at gap cur v +:+ tail))
    as (w & Hw' & ->).
  cbn [Ascii.eqb Bool.eqb].
  rewrite parse_value_blank by done.
  by rewrite Hv.
Qed.

Lemma reads_members_step f :
  reads_values f -> reads_members f -> reads_members (S f).
Proof.
  intros Hv Hm l gap cur cur' rest Hl Hw.
  destruct l as [|[k v] l]; [done |]. clear Hl. simpl in Hw.
  destruct l as [|kv l].
  - cbn [map String.concat].
    rewrite parse_member_head by (first [done | lia | by apply continues_newline]).
    rewrite skip_ws_newline. reflexivity.
  - change (String.concat ?sep (map ?g ((k, v) :: kv :: l)))
      with (g (k, v) +:+ sep +:+ String.concat sep (map g (kv :: l))).
    rewrite !app_assoc_str.
    rewrite parse_member_head by (first [done | lia | reflexivity]).
    unfold separator at 1. cbn [String.append skip_ws Chars.is_json_ws].
    cbn [Ascii.eqb Bool.eqb].
    rewrite parse_members_blank by apply blank_newline.
    rewrite Hm; [done | done | simpl in *; lia].
Qed.

Lemma skip_ws_value v gap cur (rest : string) :
  exists c r, stringify_at gap cur v +:+ rest = String c r
              /\ skip_ws (String c r) = String c r
              /\ Ascii.eqb c "]"%char = false
              /\ Ascii.eqb c "}"%char = false.
Proof.
  destruct (stringify_head v gap cur) as (c & r & Hs & Hc).
  exists c, (r +:+ rest). rewrite Hs. split; [done |].
  unfold opens_value in Hc.
  apply andb_true_iff in Hc as [[H1 H2]%andb_true_iff H3].
  apply negb_true_iff in H1, H2, H3.
  simpl. by rewrite H1.
Qed.

Lemma reads_values_step f :
  reads_items f -> reads_members f -> reads_values (S f).
Proof.
  intros Hi Hm v gap cur rest Hw Hrest.
  destruct v as [|[]|n|s|[|x l]|[|kv l]]; try reflexivity.
  - destruct (of_Z_head n) as (c & r & Hs & Hc).
    cbn [stringify_at]. pose proof (parse_number_of_Z n rest Hrest) as Hp.
    rewrite Hs in *. cbn [String.append] in *.
    by rewrite parse_value_number.
  - cbn [stringify_at]. rewrite quote_app.
    cbn [parse_value skip_ws]. simpl Chars.is_json_ws. cbn iota.
    simpl Ascii.eqb. cbn iota.
    by rewrite parse_chars_escape.
  - rewrite stringify_arr, !app_assoc_str.
    cbn [String.append parse_value skip_ws]. simpl Chars.is_json_ws.
    cbn iota. simpl Ascii.eqb. cbn iota.
    rewrite skip_ws_newline.
    change (String.concat ?sep (map ?g (x :: l)))
      with (match map g l with
            | [] => g x
            | _ :: _ => g x +:+ sep +:+ String.concat sep (map g l)
            end).
    assert (exists c r,
               skip_ws (match map (stringify_at gap (cur + gap)) l with
                        | [] => stringify_at gap (cur + gap) x
                        | _ :: _ =>
                            stringify_at gap (cur + gap) x
                              +:+ separator gap (cur + gap)
                              +:+ String.concat (separator gap (cur + gap))
                                    (map (stringify_at gap (cur + gap)) l)
                        end +:+ newline gap cur +:+ String "]" rest)
               = String c r /\ Ascii.eqb c "]"%char = false)
      as (c & r & -> & ->).
    { destruct (map _ l).
      - destruct (skip_ws_value x gap (cur + gap)
                    (newline gap cur +:+ String "]" rest))
          as (c & r & -> & -> & Hc & _). eauto.
      - rewrite !app_assoc_str.
        destruct (skip_ws_value x gap (cur + gap)
                    (separator gap (cur + gap)
                       +:+ String.concat (separator gap (cur + gap)) (s :: l0)
                       +:+ newline gap cur +:+ String "]" rest))
          as (c & r & -> & -> & Hc & _). eauto. }
    rewrite parse_items_blank by apply blank_newline.
    change (match map ?g l with
            | [] => ?g x
            | _ :: _ => ?g x +:+ ?sep +:+ String.concat ?sep (map ?g l)
            end)
      with (String.concat sep (map g (x :: l))).
    rewrite Hi; [done | done | simpl in *; lia].
  - rewrite stringify_obj, !app_assoc_str.
    cbn [String.append parse_value skip_ws]. simpl Chars.is_json_ws.
    cbn iota. simpl Ascii.eqb. cbn iota.
    rewrite skip_ws_newline.
    assert (exists r,
               String.concat (separator gap (cur + gap))
                 (map (member_text gap (cur + gap)) (kv :: l))
                 +:+ newline gap cur +:+ String "}" rest
               = String Chars.dquote r) as [r Hr].
    { cbn [map String.concat]. destruct (map _ l); unfold member_text;
        rewrite !app_assoc_str, quote_app; eauto. }
    rewrite Hr. cbn [skip_ws]. simpl Chars.is_json_ws. cbn iota.
    simpl Ascii.eqb. cbn iota. rewrite <- Hr.
    rewrite parse_members_blank by apply blank_newline.
    rewrite Hm; [done | done | simpl in *; lia].
Qed.

Lemma weight_pos v : (1 <= weight v)%nat.
Proof. destruct v; simpl; lia. Qed.

Lemma reads_all f : reads_values f /\ reads_items f /\ reads_members f.
Proof.
  induction f as [|f (Hv & Hi & Hm)].
  - split; [|split].
    + intros v ? ? ? Hw. pose proof (weight_pos v). lia.
    + intros [|x l] ? ? ? ? Hl Hw; [done | simpl in Hw; lia].
    + intros [|x l] ? ? ? ? Hl Hw; [done | simpl in Hw; lia].
  - auto using reads_values_step, reads_items_step, reads_members_step.
Qed.

(** *** The fuel [parse] starts with is enough *)

Lemma concat_length_bound {A} (sep : string) (g : A -> string)
    (wt : A -> nat) (l : list A) :
  (1 <= String.length sep)%nat ->
  Forall (fun x => (wt x <= String.length (g x))%nat) l ->
  (list_sum (map (fun x => S (wt x)) l)
   <= S (String.length (String.concat sep (map g l))))%nat.
Proof.
  intros Hsep. induction 1 as [|x l Hx Hl IH]; simpl; [lia |].
  destruct l as [|y l]; simpl in *; [lia |].
  rewrite !length_app_str.
  destruct (map g l); simpl in *; lia.
Qed.

Lemma separator_length gap cur : (1 <= String.length (separator gap cur))%nat.
Proof. unfold separator. simpl. lia. Qed.

Lemma weight_le_sum x (l : list json) :
  x ∈ l -> (S (weight x) <= list_sum (map (fun y => S (weight y)) l))%nat.
Proof. induction 1; simpl; lia. Qed.

Lemma weight_le_sum_snd (kv : string * json) l :
  kv ∈ l ->
  (S (weight (snd kv))
   <= list_sum (map (fun y : string * json => S (weight (snd y))) l))%nat.
Proof. induction 1; simpl; lia. Qed.

Lemma weight_le_length_bounded n : forall v gap cur,
  (weight v <= n)%nat ->
  (weight v <= String.length (stringify_at gap cur v))%nat.
Proof.
  induction n as [|n IH]; intros v gap cur Hn.
  { pose proof (weight_pos v). lia. }
  destruct v as [|[]|z|s|[|x l]|[|kv l]]; try (simpl; lia).
  - simpl. destruct (of_Z_head z) as (c & r & -> & _). simpl. lia.
  - rewrite stringify_arr. rewrite !length_app_str.
    pose proof (concat_length_bound (separator gap (cur + gap))
                  (stringify_at gap (cur + gap)) weight (x :: l)
                  (separator_length _ _)) as Hc.
    cbn [weight] in *. cbn [String.length]. 
    enough (Forall (fun y => (weight y
              <= String.length (stringify_at gap (cur + gap) y))%nat)
              (x :: l)) as HF by (specialize (Hc HF); lia).
    apply Forall_forall. intros y Hy. apply IH.
    pose proof (weight_le_sum y (x :: l) Hy). lia.
  - rewrite stringify_obj. rewrite !length_app_str.
    pose proof (concat_length_bound (separator gap (cur + gap))
                  (member_text gap (cur + gap))
                  (fun kv : string * json => weight (snd kv)) (kv :: l)
                  (separator_length _ _)) as Hc.
    cbn [weight] in *. cbn [String.length].
    enough (Forall (fun y : string * json => (weight (snd y)
              <= String.length (member_text gap (cur + gap) y))%nat)
              (kv :: l)) as HF by (specialize (Hc HF); lia).
    apply Forall_forall. intros y Hy. unfold member_text.
    rewrite !length_app_str.
    enough (weight (snd y)
            <= String.length (stringify_at gap (cur + gap) (snd y)))%nat
      by lia.
    apply IH. pose proof (weight_le_sum_snd y (kv :: l) Hy). lia.
Qed.

Lemma weight_le_length v gap cur :
  (weight v <= String.length (stringify_at gap cur v))%nat.
Proof. by apply (weight_le_length_bounded (weight v)). Qed.

(** Reading back what [JSON.stringify] wrote, at any indentation. *)
Lemma parse_stringify_at gap v : parse (stringify_at gap 0 v) = Some v.
Proof.
  unfold parse.
  pose proof (weight_le_length v gap 0) as Hw.
  destruct (reads_all (S (String.length (stringify_at gap 0 v))))
    as (Hv & _ & _).
  specialize (Hv v gap 0%nat "" ltac:(lia) eq_refl).
  rewrite app_empty_r in Hv. by rewrite Hv.
Qed.

Lemma parse_stringify v : parse (stringify v) = Some v.
Proof. apply parse_stringify_at. Qed.

Lemma parse_stringify_pretty gap v :
  parse (stringify_pretty gap v) = Some v.
Proof. apply parse_stringify_at. Qed.

End JsonFacts.

(** A value, written with an indentation of two and read back. *)
Example json_demo :
  Json.parse (Json.stringify_pretty 2
     (Json.JArr [Json.JObj [("id", Json.JNum 17); ("t", Json.JStr "a\b")];
                 Json.JNull; Json.JArr []; Json.JNum (-5)]))
  = Some (Json.JArr [Json.JObj [("id", Json.JNum 17); ("t", Json.JStr "a\b")];
                 Json.JNull; Json.JArr []; Json.JNum (-5)]).
Proof. vm_compute. reflexivity. Qed.

(** ** The stores *)

Section StoreFacts.

Variable cfg : Config.

Lemma job_of_to_json (j : Job.t) : Job.of_json (Job.to_json j) = Some j.
Proof. destruct j as [i [t|] [l|] [d|] n e p]; reflexivity. Qed.

Lemma application_of_to_json (a : Application.t) :
  Application.of_json (Application.to_json a) = Some a.
Proof. destruct a as [i j n e p c [r|] t]; reflexivity. Qed.

Lemma array_of_map {A} (enc : A -> Json.json) (dec : Json.json -> option A)
    (l : list A) :
  (forall x, dec (enc x) = Some x) ->
  Obj.array dec (Json.JArr (map enc l)) = Some l.
Proof.
  intros Hdec. simpl. induction l as [|x l IH]; [done |].
  cbn [map mapM]. rewrite Hdec. simpl. by rewrite IH.
Qed.

(** What a store is written with is what it is read as. *)
Lemma read_write_store {A} (enc : A -> Json.json)
    (dec : Json.json -> option A) (file : string) (l : list A)
    (d : gmap string string) :
  (forall x, dec (enc x) = Some x) ->
  read_store dec file (write_store enc file l d) = l.
Proof.
  intros Hdec. unfold read_store, write_store, Fs.readFileSync,
    Fs.writeFileSync.
  rewrite lookup_insert_eq, JsonFacts.parse_stringify_pretty.
  by rewrite array_of_map.
Qed.

(** A store only depends on its own file. *)
Lemma read_store_agree {A} (dec : Json.json -> option A) (file : string)
    (d d' : gmap string string) :
  d' !! file = d !! file -> read_store dec file d' = read_store dec file d.
Proof. unfold read_store, Fs.readFileSync. by intros ->. Qed.

(** The paths the server uses are pairwise distinct. *)
Lemma join_inj_dir (dir a b : string) :
  Path.join dir a = Path.join dir b -> a = b.
Proof.
  unfold Path.join. intros H. apply (inj (String.app dir)) in H.
  by injection H.
Qed.

Lemma jobs_file_not_apps_file : JOBS_FILE cfg <> APPS_FILE cfg.
Proof. intros H%join_inj_dir. discriminate H. Qed.

Lemma mail_log_not_apps_file : MAIL_LOG cfg <> APPS_FILE cfg.
Proof. intros H%join_inj_dir. discriminate H. Qed.

Lemma mail_log_not_jobs_file : MAIL_LOG cfg <> JOBS_FILE cfg.
Proof. intros H%join_inj_dir. discriminate H. Qed.

Lemma data_not_uploads (a b : string) :
  Path.join (Path.join (dirname cfg) "data") a
  <> Path.join (uploadsDir cfg) b.
Proof.
  unfold uploadsDir, Path.join. rewrite !app_assoc_str.
  intros H. apply (inj (String.app (dirname cfg))) in H. discriminate H.
Qed.

Lemma upload_not_apps_file (n : string) :
  Path.join (uploadsDir cfg) n <> APPS_FILE cfg.
Proof. intros H. symmetry in H. by apply data_not_uploads in H. Qed.

Lemma upload_not_jobs_file (n : string) :
  Path.join (uploadsDir cfg) n <> JOBS_FILE cfg.
Proof. intros H. symmetry in H. by apply data_not_uploads in H. Qed.

Lemma upload_not_empty (n : string) : Path.join (uploadsDir cfg) n <> "".
Proof.
  unfold uploadsDir, Path.join. rewrite !app_assoc_str.
  destruct (dirname cfg); discriminate.
Qed.

Lemma readJobs_writeJobs jobs d : readJobs cfg (writeJobs cfg jobs d) = jobs.
Proof. apply read_write_store, job_of_to_json. Qed.

Lemma readApplications_writeApplications apps d :
  readApplications cfg (writeApplications cfg apps d) = apps.
Proof. apply read_write_store, application_of_to_json. Qed.

Lemma readApplications_agree d d' :
  d' !! APPS_FILE cfg = d !! APPS_FILE cfg ->
  readApplications cfg d' = readApplications cfg d.
Proof. apply read_store_agree. Qed.

Lemma readJobs_agree d d' :
  d' !! JOBS_FILE cfg = d !! JOBS_FILE cfg ->
  readJobs cfg d' = readJobs cfg d.
Proof. apply read_store_agree. Qed.

Lemma readApplications_writeJobs jobs d :
  readApplications cfg (writeJobs cfg jobs d) = readApplications cfg d.
Proof.
  apply readApplications_agree. unfold writeJobs, write_store,
    Fs.writeFileSync.
  apply lookup_insert_ne, jobs_file_not_apps_file.
Qed.

End StoreFacts.

(** ** The job store round trip *)

(** C9. Writing a list of jobs with [writeJobs] and reading it with
    [readJobs] gives the same jobs, with the same field values, in the
    same order, whatever the disk held before. *)
Theorem writeJobs_then_readJobs (cfg : Config) (jobs : list Job.t)
    (d : gmap string string) :
  readJobs cfg (writeJobs cfg jobs d) = jobs.
Proof. apply readJobs_writeJobs. Qed.

(** The same holds for the application store. *)
Lemma writeApplications_then_readApplications (cfg : Config)
    (apps : list Application.t) (d : gmap string string) :
  readApplications cfg (writeApplications cfg apps d) = apps.
Proof. apply readApplications_writeApplications. Qed.


(** ** The admin routes without a session *)

(** C6. Without an established session, each of the four mutating admin
    routes answers 403 Forbidden and leaves the world as it was: both
    stores, the uploaded files, the console and the network. *)
Theorem admin_routes_forbidden_without_session (cfg : Config) (clk : Clock)
    (net : FetchOutcome) (body : JobBody) (id : string) (w : World) :
  let req := {| session_user := None; admin_id := id |} in
  post_admin_jobs cfg clk None body w = (w, Send 403 "Forbidden")
  /\ post_admin_jobs_delete cfg req w = (w, Send 403 "Forbidden")
  /\ post_admin_applications_delete cfg req w = (w, Send 403 "Forbidden")
  /\ post_admin_applications_reject cfg clk net req w
     = (w, Send 403 "Forbidden").
Proof. repeat split. Qed.

(** ** The file filter *)

Section FileFilterFacts.

Variable cfg : Config.

Lemma includes_allowedExt (ext : string) :
  includes allowedExt ext = true
  <-> ext = ".pdf" \/ ext = ".doc" \/ ext = ".docx".
Proof.
  unfold includes, allowedExt. cbn [existsb].
  rewrite !orb_true_iff, !String.eqb_eq. intuition congruence.
Qed.

(** The filter only looks at the extension. *)
Lemma fileFilter_by_extension (file : FilePart) :
  fileFilter file
  = if includes allowedExt
         (Str.toLowerCase (Path.extname (originalname file)))
    then None
    else Some "Invalid file type. Only PDF, DOC and DOCX are allowed".
Proof.
  unfold fileFilter.
  destruct (includes allowedExt _); [| reflexivity].
  by destruct (includes allowedMime _).
Qed.

End FileFilterFacts.

(** C7. The upload handler accepts a file exactly when the lower-cased
    extension of its original name is .pdf, .doc or .docx, whatever
    content type is declared; any other file is refused with the file-type
    error, also when its content type is on the allow-list. *)
Theorem fileFilter_accepts_iff_extension (name mime data : string) :
  let file := {| originalname := name; mimetype := mime; content := data |} in
  let ext := Str.toLowerCase (Path.extname name) in
  (fileFilter file = None
   <-> ext = ".pdf" \/ ext = ".doc" \/ ext = ".docx")
  /\ (fileFilter file = None
      \/ fileFilter file
         = Some "Invalid file type. Only PDF, DOC and DOCX are allowed").
Proof.
  intros file ext. rewrite (fileFilter_by_extension file).
  rewrite <- includes_allowedExt. cbn [originalname file]. fold ext.
  destruct (includes allowedExt ext).
  - split; [split; reflexivity | by left].
  - split; [split; discriminate | by right].
Qed.

(** The extension decides alone: an upper-case extension with a foreign
    content type passes, an allowed content type does not save a foreign
    extension, and a name that is only an extension has none. *)
Example fileFilter_extension_alone :
  fileFilter {| originalname := "cv.PDF"; mimetype := "image/png";
                content := "" |} = None
  /\ fileFilter {| originalname := "cv.png"; mimetype := "application/pdf";
                   content := "" |}
     = Some "Invalid file type. Only PDF, DOC and DOCX are allowed"
  /\ fileFilter {| originalname := ".pdf"; mimetype := "application/pdf";
                   content := "" |}
     = Some "Invalid file type. Only PDF, DOC and DOCX are allowed".
Proof. repeat split. Qed.

(** ** The disk under the handlers *)

Section DiskFacts.

Variable cfg : Config.

Lemma try_unlink_delete (d : gmap string string) p :
  Fs.try_unlink d p = delete p d.
Proof.
  unfold Fs.try_unlink, Fs.unlinkSync.
  destruct (d !! p) eqn:E; [done |]. by rewrite delete_id.
Qed.

Lemma unlink_if_exists_delete (d : gmap string string) p :
  Fs.unlink_if_exists d p = delete p d.
Proof.
  unfold Fs.unlink_if_exists, Fs.existsSync.
  destruct (d !! p) eqn:E; [apply try_unlink_delete |].
  by rewrite delete_id.
Qed.

Lemma remove_upload_delete (f : ReqFile) (d : gmap string string) :
  path f <> "" -> remove_upload (Some f) d = delete (path f) d.
Proof.
  intros Hp. unfold remove_upload, Fs.existsSync.
  destruct (path f) as [|c p] eqn:E; [done |]. simpl.
  destruct (d !! String c p) eqn:E'; [apply try_unlink_delete |].
  by rewrite delete_id.
Qed.

Lemma remove_resume_some (r : string) (d : gmap string string) :
  r <> "" -> remove_resume cfg (Some r) d = delete (resume_full_path cfg r) d.
Proof.
  intros Hr. unfold remove_resume. destruct r as [|c r]; [done |].
  apply unlink_if_exists_delete.
Qed.


Lemma sweep_from (matches : Application.t -> bool)
    (apps : list Application.t) d acc :
  fold_left
    (fun (acc : gmap string string * list Application.t) app =>
       if matches app
       then (remove_resume cfg (Application.resume app) (fst acc), snd acc)
       else (fst acc, snd acc ++ [app]))
    apps (d, acc)
  = (swept cfg matches apps d,
     acc ++ List.filter (fun app => negb (matches app)) apps).
Proof.
  revert d acc. induction apps as [|a apps IH]; intros d acc; simpl.
  - by rewrite app_nil_r.
  - destruct (matches a); simpl; rewrite IH; [done |].
    by rewrite <- app_assoc.
Qed.

Lemma sweep_spec (matches : Application.t -> bool)
    (apps : list Application.t) d :
  sweep cfg matches apps d
  = (swept cfg matches apps d,
     List.filter (fun app => negb (matches app)) apps).
Proof. unfold sweep. by rewrite sweep_from. Qed.



(** What multer leaves outside the upload directory is what was there. *)
Lemma upload_single_elsewhere now part (d : gmap string string) q :
  (forall n, q <> Path.join (uploadsDir cfg) n) ->
  (upload_single cfg now part d).1.1 !! q = d !! q.
Proof.
  intros Hq. unfold upload_single.
  destruct part as [file|]; [| done].
  destruct (fileFilter file); [done |].
  destruct (_ <? _); simpl.
  - apply lookup_delete_ne. intros E. by apply (Hq (filename now file)).
  - apply lookup_insert_ne. intros E. by apply (Hq (filename now file)).
Qed.

Lemma upload_single_jobs now part d :
  readJobs cfg (upload_single cfg now part d).1.1 = readJobs cfg d.
Proof.
  apply readJobs_agree, upload_single_elsewhere.
  intros n E. symmetry in E. by apply upload_not_jobs_file in E.
Qed.

Lemma upload_single_applications now part d :
  readApplications cfg (upload_single cfg now part d).1.1
  = readApplications cfg d.
Proof.
  apply readApplications_agree, upload_single_elsewhere.
  intros n E. symmetry in E. by apply upload_not_apps_file in E.
Qed.

End DiskFacts.

(** ** Deleting a job *)

Section DeleteJobFacts.

Variable cfg : Config.

Lemma existsb_filter_negb {A} (p : A -> bool) (l : list A) :
  existsb p (List.filter (fun x => negb (p x)) l) = false.
Proof.
  induction l as [|x l IH]; simpl; [done |].
  destruct (p x) eqn:E; simpl; [done |]. by rewrite E.
Qed.

(** The handler with a session, in one equation: the job is filtered out
    of its store, the applications are swept and rewritten. *)
Lemma post_admin_jobs_delete_session user id w :
  post_admin_jobs_delete cfg {| session_user := Some user; admin_id := id |} w
  = (with_disk w
       (writeApplications cfg
          (List.filter
             (fun app => negb (same_id (Application.jobId app) id))
             (readApplications cfg (disk w)))
          (swept cfg (fun app => same_id (Application.jobId app) id)
             (readApplications cfg (disk w))
             (writeJobs cfg
                (List.filter (fun j => negb (same_id (Job.id j) id))
                   (readJobs cfg (disk w)))
                (disk w)))),
     Redirect "/admin").
Proof.
  unfold post_admin_jobs_delete. cbn [session_user admin_id with_disk disk].
  rewrite readJobs_writeJobs, existsb_filter_negb.
  rewrite readApplications_writeJobs, sweep_spec.
  reflexivity.
Qed.

End DeleteJobFacts.


(** A reference as the apply handler stores it never names a store. *)
Lemma upload_reference_not_store (cfg : Config) (n : string) :
  resume_full_path cfg ("/uploads/" +:+ n) <> APPS_FILE cfg.
Proof.
  unfold resume_full_path, APPS_FILE, Path.join. cbn.
  rewrite !app_assoc_str. intros H.
  apply (inj (String.app (dirname cfg))) in H. discriminate H.
Qed.

(** ** Rejecting an application *)

Section RejectFacts.

Variable cfg : Config.

Lemma findIndex_lookup {A} (p : A -> bool) (l : list A) i :
  findIndex p l = Some i -> exists a, l !! i = Some a /\ p a = true.
Proof.
  revert i. induction l as [|x l IH]; intros i; simpl; [done |].
  destruct (p x) eqn:E.
  - intros [= <-]. eauto.
  - destruct (findIndex p l) as [k|]; simpl; [| done].
    intros [= <-]. apply (IH k eq_refl).
Qed.

(** The handler with a session and a known application, in one
    equation. *)
Lemma post_admin_applications_reject_found clk net user id w i a :
  findIndex (fun app => same_id (Application.id app) id)
    (readApplications cfg (disk w)) = Some i ->
  readApplications cfg (disk w) !! i = Some a ->
  post_admin_applications_reject cfg clk net
    {| session_user := Some user; admin_id := id |} w
  = let w1 :=
      notify_rejection cfg clk net a (rejected_title (readJobs cfg (disk w)) a)
        (reject_params cfg a (rejected_title (readJobs cfg (disk w)) a)) w in
    (say (with_disk w1
            (writeApplications cfg
               (delete i (readApplications cfg (disk w)))
               (remove_resume cfg (Application.resume a) (disk w1))))
       (console_log [Text "Application rejected and deleted:"; Text id]),
     Redirect "/admin").
Proof.
  intros Hi Ha. unfold post_admin_applications_reject.
  cbn [session_user admin_id]. by rewrite Hi, Ha.
Qed.

End RejectFacts.



(** The rejection at work on the installation above, the mail API
    failing: Asha's record and her resume are gone, Ravi's are there. *)
Example reject_with_failing_transport :
  let out := post_admin_applications_reject Demo.mailing Demo.clock
               (FetchStatus 500 "down")
               {| session_user := Some "admin"; admin_id := "1001" |}
               (Demo.world Demo.mailing) in
  readApplications Demo.mailing (disk out.1) = [Demo.ravi]
  /\ disk out.1 !! "/srv/site/uploads/1000-cv.pdf" = None
  /\ disk out.1 !! "/srv/site/uploads/1001-ravi.doc" = Some "doc"
  /\ out.2 = Redirect "/admin".
Proof. vm_compute. repeat split. Qed.

(** ** Applying to a job *)

Section ApplyFacts.

Variable cfg : Config.

Lemma or_else_some (s : string) : Str.or_else (Some s) "" = s.
Proof. by destruct s. Qed.

(** The form that is shown again holds what was submitted. *)
Lemma submitted_form_preserves (n e p c : string) :
  submitted_form {| body_name := Some n; body_email := Some e;
                    body_phone := Some p; body_cover := Some c |}
  = {| form_name := n; form_email := e; form_phone := p; form_cover := c |}.
Proof. by destruct n, e, p, c. Qed.

Lemma statSync_size_saved (d : gmap string string) p data :
  d !! p = Some data ->
  Fs.statSync_size d p = Some (Z.of_nat (String.length data)).
Proof. unfold Fs.statSync_size. by intros ->. Qed.

(** The callback on a saved file and a failing submission: the file is
    unlinked and the form rendered again, nothing else. *)
Lemma apply_callback_invalid clk net req err f data job w :
  List.find (fun j => same_id (Job.id j) (apply_id req))
    (readJobs cfg (disk w)) = Some job ->
  path f <> "" ->
  disk w !! path f = Some data ->
  fails_validation req err data ->
  exists error,
    apply_callback cfg clk net req err (Some f) w
    = (with_disk w (delete (path f) (disk w)),
       RenderApply job error (submitted_form (apply_body req))).
Proof.
  intros Hjob Hpath Hsaved Hfail. unfold apply_callback. rewrite Hjob.
  destruct err as [message|].
  { rewrite remove_upload_delete by done. eauto. }
  destruct (Str.truthy (body_name (apply_body req))) eqn:En; cbn [negb orb];
    [| rewrite remove_upload_delete by done; eauto].
  destruct (Str.truthy (body_email (apply_body req))) eqn:Ee; cbn [negb orb];
    [| rewrite remove_upload_delete by done; eauto].
  destruct (Str.truthy (body_phone (apply_body req))) eqn:Ep; cbn [negb orb];
    [| rewrite remove_upload_delete by done; eauto].
  destruct (Str.truthy (body_cover (apply_body req))) eqn:Ec; cbn [negb orb];
    [| rewrite remove_upload_delete by done; eauto].
  destruct (Regex.test emailRe _) eqn:Eem; cbn [negb];
    [| rewrite remove_upload_delete by done; eauto].
  destruct (Regex.test phoneRe _) eqn:Eph; cbn [negb];
    [| rewrite remove_upload_delete by done; eauto].
  rewrite (statSync_size_saved _ _ _ Hsaved).
  destruct (Z.ltb_spec (Z.of_nat (String.length data)) MIN_RESUME_BYTES)
    as [Hsmall|Hbig].
  { rewrite try_unlink_delete. eauto. }
  exfalso. unfold fails_validation in Hfail.
  destruct Hfail as [H|[H|[H|[H|[H|[H|[H|H]]]]]]];
    first [done | congruence | lia].
Qed.

End ApplyFacts.

(** What the callback does with a saved file and a failing submission,
    in full. *)
Lemma apply_callback_cleanup (cfg : Config) (clk : Clock)
    (net : FetchOutcome) (req : ApplyRequest) (err : option string)
    (f : ReqFile) (n data : string) (job : Job.t) (w : World) :
  List.find (fun j => same_id (Job.id j) (apply_id req))
    (readJobs cfg (disk w)) = Some job ->
  path f = Path.join (uploadsDir cfg) n ->
  disk w !! path f = Some data ->
  fails_validation req err data ->
  let out := apply_callback cfg clk net req err (Some f) w in
  (exists error,
      out.2 = RenderApply job error (submitted_form (apply_body req)))
  /\ disk out.1 = delete (path f) (disk w)
  /\ disk out.1 !! path f = None
  /\ readApplications cfg (disk out.1) = readApplications cfg (disk w)
  /\ console out.1 = console w
  /\ network out.1 = network w
  /\ (forall s, body_name (apply_body req) = Some s ->
                form_name (submitted_form (apply_body req)) = s)
  /\ (forall s, body_email (apply_body req) = Some s ->
                form_email (submitted_form (apply_body req)) = s)
  /\ (forall s, body_phone (apply_body req) = Some s ->
                form_phone (submitted_form (apply_body req)) = s)
  /\ (forall s, body_cover (apply_body req) = Some s ->
                form_cover (submitted_form (apply_body req)) = s).
Proof.
  intros Hjob Hpath Hsaved Hfail out.
  assert (path f <> "") as Hne by (rewrite Hpath; apply upload_not_empty).
  destruct (apply_callback_invalid cfg clk net req err f data job w
              Hjob Hne Hsaved Hfail) as [error Hout].
  unfold out. rewrite Hout. cbn [fst snd disk console network with_disk].
  split; [by exists error |]. split; [done |].
  split; [apply lookup_delete_eq |]. split.
  { apply readApplications_agree, lookup_delete_ne.
    rewrite Hpath. apply upload_not_apps_file. }
  split; [done |]. split; [done |].
  unfold submitted_form. cbn [form_name form_email form_phone form_cover].
  repeat split; intros s ->; apply or_else_some.
Qed.

(** C3. On a submission to an existing job, when the resume was saved in
    the upload directory and a check then fails (an upload error reported
    with the file in place, a required field missing, an email or a phone
    that does not match, a resume under the minimum size), the handler
    unlinks the saved file and renders the apply form again with an error
    message and with the submitted name, email, phone and cover; the
    application store is as before, and so are the console and the
    network. *)
Theorem apply_failure_removes_upload (cfg : Config) (clk : Clock)
    (net : FetchOutcome) (req : ApplyRequest) (err : option string)
    (f : ReqFile) (n data : string) (job : Job.t) (w : World) :
  List.find (fun j => same_id (Job.id j) (apply_id req))
    (readJobs cfg (disk w)) = Some job ->
  path f = Path.join (uploadsDir cfg) n ->
  disk w !! path f = Some data ->
  fails_validation req err data ->
  let out := apply_callback cfg clk net req err (Some f) w in
  (exists error,
      out.2 = RenderApply job error (submitted_form (apply_body req)))
  /\ disk out.1 = delete (path f) (disk w)
  /\ disk out.1 !! path f = None
  /\ readApplications cfg (disk out.1) = readApplications cfg (disk w)
  /\ console out.1 = console w
  /\ network out.1 = network w
  /\ (forall s, body_name (apply_body req) = Some s ->
                form_name (submitted_form (apply_body req)) = s)
  /\ (forall s, body_email (apply_body req) = Some s ->
                form_email (submitted_form (apply_body req)) = s)
  /\ (forall s, body_phone (apply_body req) = Some s ->
                form_phone (submitted_form (apply_body req)) = s)
  /\ (forall s, body_cover (apply_body req) = Some s ->
                form_cover (submitted_form (apply_body req)) = s).
Proof. apply apply_callback_cleanup. Qed.

Lemma apply_failure_removes_upload_witness :
  let req := {| apply_id := "17"; apply_body := Demo.body;
                apply_file := Some Demo.tiny |} in
  let f := {| path := "/srv/site/uploads/2000-cv.pdf" |} in
  let w := with_disk (Demo.world Demo.plain)
             (<["/srv/site/uploads/2000-cv.pdf" := "tiny"]>
                (disk (Demo.world Demo.plain))) in
  let out := apply_callback Demo.plain Demo.clock FetchOk req None (Some f) w in
  (exists error,
      out.2 = RenderApply Demo.welder error (submitted_form Demo.body))
  /\ disk out.1 = delete (path f) (disk w)
  /\ disk out.1 !! path f = None
  /\ readApplications Demo.plain (disk out.1)
     = readApplications Demo.plain (disk w)
  /\ console out.1 = console w
  /\ network out.1 = network w
  /\ (forall s, body_name Demo.body = Some s ->
                form_name (submitted_form Demo.body) = s)
  /\ (forall s, body_email Demo.body = Some s ->
                form_email (submitted_form Demo.body) = s)
  /\ (forall s, body_phone Demo.body = Some s ->
                form_phone (submitted_form Demo.body) = s)
  /\ (forall s, body_cover Demo.body = Some s ->
                form_cover (submitted_form Demo.body) = s).
Proof.
  intros req f w.
  apply (apply_failure_removes_upload Demo.plain Demo.clock FetchOk req None
           f "2000-cv.pdf" "tiny" Demo.welder w).
  - vm_compute. reflexivity.
  - reflexivity.
  - vm_compute. reflexivity.
  - unfold fails_validation. do 7 right. vm_compute. reflexivity.
Defined.

(** The whole route: a resume that multer stored and a submission that
    then fails leave neither a file nor a record. *)
Lemma post_jobs_apply_invalid (cfg : Config) (clk : Clock)
    (net : FetchOutcome) (req : ApplyRequest) (file : FilePart)
    (job : Job.t) (w : World) :
  List.find (fun j => same_id (Job.id j) (apply_id req))
    (readJobs cfg (disk w)) = Some job ->
  apply_file req = Some file ->
  fileFilter file = None ->
  Z.of_nat (String.length (content file)) <= MAX_RESUME_BYTES ->
  fails_validation req None (content file) ->
  let p := Path.join (uploadsDir cfg) (filename (upload_ms clk) file) in
  let out := post_jobs_apply cfg clk net req w in
  (exists error,
      out.2 = RenderApply job error (submitted_form (apply_body req)))
  /\ disk out.1 = delete p (disk w)
  /\ readApplications cfg (disk out.1) = readApplications cfg (disk w).
Proof.
  intros Hjob Hfile Hfilter Hsize Hfail p out.
  unfold out, post_jobs_apply, upload_single. rewrite Hfile, Hfilter.
  destruct (Z.ltb_spec MAX_RESUME_BYTES
              (Z.of_nat (String.length (content file)))) as [Hbig|_];
    [lia |].
  fold p.
  pose proof (apply_callback_cleanup cfg clk net req None
                {| path := p |} (filename (upload_ms clk) file)
                (content file) job
                (with_disk w (Fs.writeFileSync (disk w) p (content file))))
    as H.
  cbn [path disk with_disk] in H.
  destruct H as (Hres & Hdisk & _ & Happs & _).
  - rewrite <- Hjob. f_equal. apply readJobs_agree, lookup_insert_ne.
    apply upload_not_jobs_file.
  - done.
  - apply lookup_insert_eq.
  - done.
  - split; [done |]. split.
    + rewrite Hdisk. unfold Fs.writeFileSync. apply delete_insert_eq.
    + rewrite Happs. apply readApplications_agree, lookup_insert_ne.
      apply upload_not_apps_file.
Qed.

(** ** Applying to a job that does not exist *)

(** The route when no stored job has the requested id, in full. *)
Lemma post_jobs_apply_unknown (cfg : Config) (clk : Clock)
    (net : FetchOutcome) (req : ApplyRequest) (w : World) :
  List.find (fun j => same_id (Job.id j) (apply_id req))
    (readJobs cfg (disk w)) = None ->
  let up := upload_single cfg (upload_ms clk) (apply_file req) (disk w) in
  let out := post_jobs_apply cfg clk net req w in
  out = (with_disk w up.1.1, Send 404 "Job not found")
  /\ readApplications cfg (disk out.1) = readApplications cfg (disk w)
  /\ (forall file,
         apply_file req = Some file -> fileFilter file = None ->
         Z.of_nat (String.length (content file)) <= MAX_RESUME_BYTES ->
         disk out.1
           !! Path.join (uploadsDir cfg) (filename (upload_ms clk) file)
         = Some (content file)).
Proof.
  intros Hjob up out.
  assert (out = (with_disk w up.1.1, Send 404 "Job not found")) as Hout.
  { unfold out, post_jobs_apply. fold up.
    destruct up as [[d err] file] eqn:E. cbn [fst].
    unfold apply_callback. cbn [disk with_disk].
    replace d with up.1.1 by (by rewrite E).
    unfold up at 1. by rewrite upload_single_jobs, Hjob. }
  rewrite Hout. cbn [fst disk with_disk].
  split; [done |]. split; [apply upload_single_applications |].
  intros file Hfile Hfilter Hsize. unfold up, upload_single.
  rewrite Hfile, Hfilter.
  destruct (Z.ltb_spec MAX_RESUME_BYTES
              (Z.of_nat (String.length (content file)))) as [Hbig|_];
    [lia |].
  apply lookup_insert_eq.
Qed.

(** C10. When no job in the store has an id string-equal to the requested
    one, POST /jobs/:id/apply answers 404 "Job not found" and changes
    nothing but what the upload middleware did before: the application
    store is as it was, and a resume that the middleware stored for this
    request is still on the disk, with its content. *)
Theorem apply_unknown_job_keeps_upload (cfg : Config) (clk : Clock)
    (net : FetchOutcome) (req : ApplyRequest) (w : World) :
  List.find (fun j => same_id (Job.id j) (apply_id req))
    (readJobs cfg (disk w)) = None ->
  let up := upload_single cfg (upload_ms clk) (apply_file req) (disk w) in
  let out := post_jobs_apply cfg clk net req w in
  out = (with_disk w up.1.1, Send 404 "Job not found")
  /\ readApplications cfg (disk out.1) = readApplications cfg (disk w)
  /\ (forall file,
         apply_file req = Some file -> fileFilter file = None ->
         Z.of_nat (String.length (content file)) <= MAX_RESUME_BYTES ->
         disk out.1
           !! Path.join (uploadsDir cfg) (filename (upload_ms clk) file)
         = Some (content file)).
Proof. apply post_jobs_apply_unknown. Qed.

Lemma apply_unknown_job_keeps_upload_witness :
  let req := {| apply_id := "999"; apply_body := Demo.body;
                apply_file := Some Demo.tiny |} in
  let w := Demo.world Demo.plain in
  let up := upload_single Demo.plain (upload_ms Demo.clock) (apply_file req)
              (disk w) in
  let out := post_jobs_apply Demo.plain Demo.clock FetchOk req w in
  out = (with_disk w up.1.1, Send 404 "Job not found")
  /\ readApplications Demo.plain (disk out.1)
     = readApplications Demo.plain (disk w)
  /\ (forall file,
         apply_file req = Some file -> fileFilter file = None ->
         Z.of_nat (String.length (content file)) <= MAX_RESUME_BYTES ->
         disk out.1
           !! Path.join (uploadsDir Demo.plain)
                (filename (upload_ms Demo.clock) file)
         = Some (content file)).
Proof.
  intros req w.
  apply (apply_unknown_job_keeps_upload Demo.plain Demo.clock FetchOk req w).
  vm_compute. reflexivity.
Defined.

(** ** Resumes outside the size limits *)

(** For an existing job the limits hold: a resume under the minimum or
    over the maximum leaves no record and no file at the upload path. *)
Lemma post_jobs_apply_bad_size (cfg : Config) (clk : Clock)
    (net : FetchOutcome) (req : ApplyRequest) (file : FilePart)
    (job : Job.t) (w : World) :
  List.find (fun j => same_id (Job.id j) (apply_id req))
    (readJobs cfg (disk w)) = Some job ->
  apply_file req = Some file ->
  Z.of_nat (String.length (content file)) < MIN_RESUME_BYTES
  \/ MAX_RESUME_BYTES < Z.of_nat (String.length (content file)) ->
  let p := Path.join (uploadsDir cfg) (filename (upload_ms clk) file) in
  let out := post_jobs_apply cfg clk net req w in
  readApplications cfg (disk out.1) = readApplications cfg (disk w)
  /\ (fileFilter file = None -> disk out.1 !! p = None)
  /\ (fileFilter file <> None -> disk out.1 = disk w).
Proof.
  intros Hjob Hfile Hsize p out.
  destruct (fileFilter file) as [message|] eqn:Hfilter.
  - (* refused by the filter: nothing was stored *)
    assert (disk out.1 = disk w) as Hd.
    { unfold out, post_jobs_apply, upload_single. rewrite Hfile, Hfilter.
      unfold apply_callback. cbn [disk with_disk]. rewrite Hjob.
      reflexivity. }
    rewrite Hd. repeat split; done.
  - destruct (Z.ltb_spec MAX_RESUME_BYTES
                (Z.of_nat (String.length (content file)))) as [Hbig|Hok].
    + (* over the limit: multer removed what it had stored *)
      assert (disk out.1 = delete p (disk w)) as Hd.
      { unfold out, post_jobs_apply, upload_single. rewrite Hfile, Hfilter.
        apply Z.ltb_lt in Hbig. rewrite Hbig. fold p.
        unfold apply_callback. cbn [disk with_disk].
        rewrite (readJobs_agree cfg (disk w)), Hjob; [done |].
        apply lookup_delete_ne, upload_not_jobs_file. }
      rewrite Hd. split; [| split; [intros _; apply lookup_delete_eq | done]].
      apply readApplications_agree, lookup_delete_ne, upload_not_apps_file.
    + (* stored, then found too small *)
      destruct Hsize as [Hsmall|Hbig]; [| lia].
      destruct (post_jobs_apply_invalid cfg clk net req file job w
                  Hjob Hfile Hfilter Hok) as (_ & Hd & Happs).
      { unfold fails_validation. do 7 right. done. }
      fold p in Hd. fold out in Hd, Happs.
      split; [done |]. split; [| done].
      intros _. rewrite Hd. apply lookup_delete_eq.
Qed.

(** C2, at the input where the code departs from it: a resume of four
    bytes sent for job 999, which is not in the store.  The answer is 404
    and the upload stays on the disk. *)
Theorem undersized_upload_for_unknown_job_stays :
  let req := {| apply_id := "999"; apply_body := Demo.body;
                apply_file := Some Demo.tiny |} in
  let w := Demo.world Demo.plain in
  let out := post_jobs_apply Demo.plain Demo.clock FetchOk req w in
  Z.of_nat (String.length (content Demo.tiny)) < MIN_RESUME_BYTES
  /\ out.2 = Send 404 "Job not found"
  /\ disk w !! "/srv/site/uploads/2000-cv.pdf" = None
  /\ disk out.1 !! "/srv/site/uploads/2000-cv.pdf" = Some "tiny"
  /\ readApplications Demo.plain (disk out.1)
     = readApplications Demo.plain (disk w).
Proof. vm_compute. repeat split. Qed.

(** ** The mail log holds one line per attempt *)

Section OneLine.
Import Json.











End OneLine.

(** ** Notifications *)

Section NotifyFacts.

Variable cfg : Config.


(** [sendEmailJS] leaves the disk alone. *)
Lemma sendEmailJS_disk net tid params w :
  disk (sendEmailJS cfg net tid params w).1 = disk w.
Proof.
  unfold sendEmailJS. destruct (mailerConfigured cfg); [| done].
  by destruct net.
Qed.

(** A notification only touches the mail log on the disk. *)
Lemma notify_confirmation_elsewhere clk net job application params w q :
  q <> MAIL_LOG cfg ->
  disk (notify_confirmation cfg clk net job application params w) !! q
  = disk w !! q.
Proof.
  intros Hq. unfold notify_confirmation.
  destruct (mailerConfigured cfg).
  - pose proof (sendEmailJS_disk net (EMAILJS_TEMPLATE_ID_CONFIRM cfg)
                  params w) as Hd.
    destruct (sendEmailJS _ _ _ _ _) as [w1 [err|]];
      cbn [fst] in Hd; cbn [logMailAttempt say with_disk disk];
      unfold Fs.appendFileSync; rewrite lookup_insert_ne by done;
      by rewrite Hd.
  - cbn [logMailAttempt say with_disk disk].
    unfold Fs.appendFileSync. by rewrite lookup_insert_ne.
Qed.



(** The route on a submission that passes every check, in one equation:
    the resume is stored, the record appended, the applicant notified
    and the success page rendered. *)
Lemma post_jobs_apply_valid clk net req file job w :
  List.find (fun j => same_id (Job.id j) (apply_id req))
    (readJobs cfg (disk w)) = Some job ->
  apply_file req = Some file ->
  fileFilter file = None ->
  Z.of_nat (String.length (content file)) <= MAX_RESUME_BYTES ->
  passes_validation req (content file) ->
  let p := Path.join (uploadsDir cfg) (filename (upload_ms clk) file) in
  let application := new_application clk job (apply_body req) p in
  let form := submitted_form (apply_body req) in
  post_jobs_apply cfg clk net req w
  = (notify_confirmation cfg clk net job application
       (confirm_params cfg job (form_name form) (form_email form)
          (form_phone form) (form_cover form))
       (with_disk w
          (writeApplications cfg
             (readApplications cfg (disk w) ++ [application])
             (Fs.writeFileSync (disk w) p (content file)))),
     RenderApplySuccess job application).
Proof.
  intros Hjob Hfile Hfilter Hmax (Hn & He & Hp & Hc & Hem & Hph & Hmin)
    p application form.
  unfold post_jobs_apply, upload_single. rewrite Hfile, Hfilter.
  destruct (Z.ltb_spec MAX_RESUME_BYTES
              (Z.of_nat (String.length (content file)))) as [Hbig|_];
    [lia |].
  fold p. unfold apply_callback. cbn [disk with_disk path].
  rewrite (readJobs_agree cfg (disk w)), Hjob
    by apply lookup_insert_ne, upload_not_jobs_file.
  rewrite Hn, He, Hp, Hc, Hem, Hph. cbn [negb orb].
  unfold Fs.statSync_size, Fs.writeFileSync at 1.
  rewrite lookup_insert_eq.
  destruct (Z.ltb_spec (Z.of_nat (String.length (content file)))
              MIN_RESUME_BYTES) as [Hsmall|_]; [lia |].
  rewrite (readApplications_agree cfg (disk w))
    by apply lookup_insert_ne, upload_not_apps_file.
  reflexivity.
Qed.

End NotifyFacts.


(** ** What is sent to the mail API *)

Section PayloadFacts.

Variable cfg : Config.

Lemma sendEmailJS_network net tid params w :
  network (sendEmailJS cfg net tid params w).1
  = if mailerConfigured cfg then network w ++ [mail_call cfg tid params]
    else network w.
Proof.
  unfold sendEmailJS. destruct (mailerConfigured cfg); [| done].
  by destruct net.
Qed.

Lemma notify_confirmation_network clk net job application params w :
  network (notify_confirmation cfg clk net job application params w)
  = if mailerConfigured cfg
    then network w
           ++ [mail_call cfg (EMAILJS_TEMPLATE_ID_CONFIRM cfg) params]
    else network w.
Proof.
  unfold notify_confirmation.
  pose proof (sendEmailJS_network net (EMAILJS_TEMPLATE_ID_CONFIRM cfg)
                params w) as Hn.
  destruct (mailerConfigured cfg); [| done].
  by destruct (sendEmailJS _ _ _ _ _) as [w1 [err|]].
Qed.

Lemma notify_rejection_network clk net application title params w :
  network (notify_rejection cfg clk net application title params w)
  = if mailerConfigured cfg
    then network w
           ++ [mail_call cfg (EMAILJS_TEMPLATE_ID_REJECT cfg) params]
    else network w.
Proof.
  unfold notify_rejection.
  pose proof (sendEmailJS_network net (EMAILJS_TEMPLATE_ID_REJECT cfg)
                params w) as Hn.
  destruct (mailerConfigured cfg); [| done].
  by destruct (sendEmailJS _ _ _ _ _) as [w1 [err|]].
Qed.

(** The only call the apply callback can make is the confirmation. *)
Lemma apply_callback_network clk net req err file w :
  let out := apply_callback cfg clk net req err file w in
  let form := submitted_form (apply_body req) in
  network out.1 = network w
  \/ exists job,
      List.find (fun j => same_id (Job.id j) (apply_id req))
        (readJobs cfg (disk w)) = Some job
      /\ network out.1
         = network w
             ++ [mail_call cfg (EMAILJS_TEMPLATE_ID_CONFIRM cfg)
                   (confirm_params cfg job (form_name form)
                      (form_email form) (form_phone form)
                      (form_cover form))].
Proof.
  intros out form. unfold out, apply_callback.
  destruct (List.find _ _) as [job|] eqn:Hjob; [| by left].
  destruct err; [by left |].
  destruct (_ || _); [by left |].
  destruct (negb (Regex.test emailRe _)); [by left |].
  destruct (negb (Regex.test phoneRe _)); [by left |].
  destruct file as [f|]; [| by left].
  destruct (Fs.statSync_size _ _) as [size|]; [| by left].
  destruct (size <? MIN_RESUME_BYTES); [by left |].
  cbn [fst]. rewrite notify_confirmation_network.
  destruct (mailerConfigured cfg); [| by left].
  right. exists job. split; [done |]. reflexivity.
Qed.

Lemma post_jobs_apply_network clk net req w :
  let out := post_jobs_apply cfg clk net req w in
  let form := submitted_form (apply_body req) in
  network out.1 = network w
  \/ exists job,
      List.find (fun j => same_id (Job.id j) (apply_id req))
        (readJobs cfg (disk w)) = Some job
      /\ network out.1
         = network w
             ++ [mail_call cfg (EMAILJS_TEMPLATE_ID_CONFIRM cfg)
                   (confirm_params cfg job (form_name form)
                      (form_email form) (form_phone form)
                      (form_cover form))].
Proof.
  intros out form. unfold out, post_jobs_apply.
  pose proof (upload_single_jobs cfg (upload_ms clk) (apply_file req)
                (disk w)) as Hjobs.
  destruct (upload_single _ _ _ _) as [[d err] file]. cbn [fst] in Hjobs.
  pose proof (apply_callback_network clk net req err file (with_disk w d))
    as H.
  cbn [disk with_disk network] in H. by rewrite Hjobs in H.
Qed.

(** The only call the reject handler can make is the rejection. *)
Lemma post_admin_applications_reject_network clk net req w :
  let out := post_admin_applications_reject cfg clk net req w in
  network out.1 = network w
  \/ exists a,
      a ∈ readApplications cfg (disk w)
      /\ network out.1
         = network w
             ++ [mail_call cfg (EMAILJS_TEMPLATE_ID_REJECT cfg)
                   (reject_params cfg a
                      (rejected_title (readJobs cfg (disk w)) a))].
Proof.
  intros out. unfold out, post_admin_applications_reject.
  destruct (session_user req); [| by left].
  destruct (findIndex _ _) as [i|]; [| by left].
  destruct (_ !! i) as [a|] eqn:Ha; [| by left].
  cbn [fst network say with_disk]. rewrite notify_rejection_network.
  destruct (mailerConfigured cfg); [| by left].
  right. exists a. split; [| done]. by apply list_elem_of_lookup_2 in Ha.
Qed.

(** The body of a call carries the parameters that are defined, each as
    a string. *)
Lemma sent_template_params_mail_call tid params :
  sent_template_params (mail_call cfg tid params) = Some (params_json params).
Proof.
  unfold sent_template_params, mail_call. cbn [fetch_body].
  rewrite JsonFacts.parse_stringify. unfold payload.
  by destruct (EMAILJS_SERVICE_ID cfg), tid, (EMAILJS_USER_ID cfg).
Qed.

Lemma params_json_flat params :
  Forall (fun kv : string * Json.json => exists s, kv.2 = Json.JStr s)
    (params_json params).
Proof.
  unfold params_json. induction params as [|[k [v|]] params IH]; simpl;
    [done | | done].
  constructor; [by exists v | done].
Qed.

End PayloadFacts.

(** C8, as the code has it.  The template parameters of a send are a flat
    mapping from names to strings.  The confirmation is the only call the
    apply route makes, and its parameters are the applicant's name and
    email, the job's title and location, the phone, the cover letter, the
    sender address and the recipient address again under [email].  The
    rejection is the only call the reject route makes, and its parameters
    are the applicant's name and email, the job's title, the sender address
    and the recipient address again under [email]; it has no location, no
    phone and no cover letter. *)
Theorem mail_payload_parameters (cfg : Config) :
  (forall params,
      Forall (fun kv : string * Json.json => exists s, kv.2 = Json.JStr s)
        (params_json params))
  /\ (forall clk net req w,
         let out := post_jobs_apply cfg clk net req w in
         let form := submitted_form (apply_body req) in
         network out.1 = network w
         \/ exists job,
             let params :=
               confirm_params cfg job (form_name form) (form_email form)
                 (form_phone form) (form_cover form) in
             let c := mail_call cfg (EMAILJS_TEMPLATE_ID_CONFIRM cfg) params in
             List.find (fun j => same_id (Job.id j) (apply_id req))
               (readJobs cfg (disk w)) = Some job
             /\ network out.1 = network w ++ [c]
             /\ sent_template_params c = Some (params_json params)
             /\ param "applicant_name" params = Some (Some (form_name form))
             /\ param "applicant_email" params = Some (Some (form_email form))
             /\ param "job_title" params = Some (Job.title job)
             /\ param "job_location" params = Some (Job.location job)
             /\ param "phone_number" params = Some (Some (form_phone form))
             /\ param "cover_letter" params = Some (Some (form_cover form))
             /\ param "company_email" params = Some (Some (COMPANY_EMAIL cfg))
             /\ param "email" params = Some (Some (form_email form)))
  /\ (forall clk net req w,
         let out := post_admin_applications_reject cfg clk net req w in
         network out.1 = network w
         \/ exists a,
             let title := rejected_title (readJobs cfg (disk w)) a in
             let params := reject_params cfg a title in
             let c := mail_call cfg (EMAILJS_TEMPLATE_ID_REJECT cfg) params in
             a ∈ readApplications cfg (disk w)
             /\ network out.1 = network w ++ [c]
             /\ sent_template_params c = Some (params_json params)
             /\ param "applicant_name" params
                = Some (Some (Application.name a))
             /\ param "applicant_email" params
                = Some (Some (Application.email a))
             /\ param "job_title" params = Some title
             /\ param "company_email" params = Some (Some (COMPANY_EMAIL cfg))
             /\ param "email" params = Some (Some (Application.email a))
             /\ param "job_location" params = None
             /\ param "phone_number" params = None
             /\ param "cover_letter" params = None).
Proof.
  split; [apply params_json_flat |]. split.
  - intros clk net req w out form.
    destruct (post_jobs_apply_network cfg clk net req w)
      as [H | (job & Hjob & H)]; [by left |].
    right. exists job. intros params c.
    split; [done |]. split; [done |].
    split; [apply sent_template_params_mail_call |].
    repeat split.
  - intros clk net req w out.
    destruct (post_admin_applications_reject_network cfg clk net req w)
      as [H | (a & Ha & H)]; [by left |].
    right. exists a. intros title params c.
    split; [done |]. split; [done |].
    split; [apply sent_template_params_mail_call |].
    repeat split.
Qed.

(** C8 as it is stated fails on a rejection: on the small installation,
    with the mailer configured, rejecting Asha's application sends one call,
    and its template parameters lack the location, the phone and the cover
    letter. *)
Lemma rejection_payload_lacks_listed_parameters :
  let out :=
    post_admin_applications_reject Demo.mailing Demo.clock FetchOk
      {| session_user := Some "admin"; admin_id := "1001" |}
      (Demo.world Demo.mailing) in
  ~ (forall c, c ∈ network out.1 -> carries_listed_parameters c = true).
Proof.
  intros out H.
  specialize (H (mail_call Demo.mailing (Some "auto_reply")
                   (reject_params Demo.mailing Demo.asha (Some "Welder")))).
  assert (network out.1
          = [mail_call Demo.mailing (Some "auto_reply")
               (reject_params Demo.mailing Demo.asha (Some "Welder"))])
    as Hnet by (vm_compute; reflexivity).
  rewrite Hnet in H. specialize (H ltac:(by apply list_elem_of_here)).
  vm_compute in H. discriminate H.
Qed.

(** The same request, read from the body that went out. *)
Example rejection_payload_on_the_wire :
  let out :=
    post_admin_applications_reject Demo.mailing Demo.clock FetchOk
      {| session_user := Some "admin"; admin_id := "1001" |}
      (Demo.world Demo.mailing) in
  (fun c => Json.get "job_location" <$> sent_template_params c)
    <$> network out.1 = [Some None]
  /\ (fun c => Json.get "job_title" <$> sent_template_params c)
       <$> network out.1 = [Some (Some (Json.JStr "Welder"))].
Proof. vm_compute. split; reflexivity. Qed.

(** ** The handlers at work on the small installation *)

(** Deleting job 17 removes Asha's application and her resume, and keeps
    Ravi's, which is for another job. *)
Example delete_job_at_work :
  let out := post_admin_jobs_delete Demo.plain
               {| session_user := Some "admin"; admin_id := "17" |}
               (Demo.world Demo.plain) in
  out.2 = Redirect "/admin"
  /\ readJobs Demo.plain (disk out.1) = []
  /\ readApplications Demo.plain (disk out.1) = [Demo.ravi]
  /\ disk out.1 !! "/srv/site/uploads/1000-cv.pdf" = None
  /\ disk out.1 !! "/srv/site/uploads/1001-ravi.doc" = Some "doc".
Proof. vm_compute. repeat split. Qed.

(** A submission that passes every check, the mailer not configured: the
    record is stored with its resume, nothing goes to the network, and the
    mail log gets its line. *)
Example apply_without_mailer_at_work :
  let out := post_jobs_apply Demo.plain Demo.clock FetchOk
               {| apply_id := "17"; apply_body := Demo.body;
                  apply_file := Some Demo.resume |}
               (Demo.world Demo.plain) in
  (exists application,
      out.2 = RenderApplySuccess Demo.welder application
      /\ Application.resume application = Some "/uploads/2000-Meena_CV.docx"
      /\ readApplications Demo.plain (disk out.1)
         = [Demo.asha; Demo.ravi; application])
  /\ Fs.existsSync (disk out.1) "/srv/site/uploads/2000-Meena_CV.docx" = true
  /\ network out.1 = []
  /\ disk out.1 !! MAIL_LOG Demo.plain
     = Some (mail_log_line "2024-03-01T00:00:01.000Z"
               [("to", Json.JStr "meena@example.com");
                ("subject", Json.JStr "Application Received: Welder");
                ("sent", Json.JBool false);
                ("note", Json.JStr "EmailJS not configured")]).
Proof. vm_compute. split; [eexists |]; repeat split. Qed.

(** ** Adding a job *)

(** The job that POST /admin/jobs appends has at least one opening and an
    experience between 0 and 50, whatever the form held. *)
Lemma post_admin_jobs_clamps (cfg : Config) (clk : Clock) (user : string)
    (body : JobBody) (w : World) :
  let out := post_admin_jobs cfg clk (Some user) body w in
  exists job,
    readJobs cfg (disk out.1) = readJobs cfg (disk w) ++ [job]
    /\ Job.id job = now_ms clk
    /\ 1 <= Job.openings job
    /\ 0 <= Job.experience job <= 50.
Proof.
  intros out. unfold out, post_admin_jobs. cbn [fst disk with_disk].
  eexists. split; [apply readJobs_writeJobs |]. cbn [Job.id Job.openings
    Job.experience]. split; [done |]. lia.
Qed.

(** ** Regular expressions: the test decides the language *)

Section RegexFacts.
Import Regex Spec.

Lemma app_empty_inv (a b : string) : a +:+ b = "" -> a = "" /\ b = "".
Proof. destruct a; simpl; [done | discriminate]. Qed.

Lemma app_cons_inv (a b : string) c (s : string) :
  a +:+ b = String c s ->
  (a = "" /\ b = String c s) \/ (exists a', a = String c a' /\ s = a' +:+ b).
Proof.
  destruct a as [|x a]; simpl; [by left |].
  intros [= -> <-]. right. eauto.
Qed.

Lemma nullable_matches r : nullable r = true <-> matches r "".
Proof.
  induction r as [| |p|r1 IH1 r2 IH2|r1 IH1 r2 IH2|r IH]; simpl.
  - split; [done | inversion 1].
  - split; [constructor | done].
  - split; [done | inversion 1].
  - rewrite andb_true_iff, IH1, IH2. split.
    + intros [H1 H2]. apply (matches_seq _ _ "" "" H1 H2).
    + inversion 1 as [| |? ? s1 s2 H1 H2 Hr Hs| | | |]; subst.
      apply app_empty_inv in Hs as [-> ->]. done.
  - rewrite orb_true_iff, IH1, IH2. split.
    + intros [H|H]; [by apply matches_alt_l | by apply matches_alt_r].
    + inversion 1; subst; auto.
  - split; [constructor | done].
Qed.

(** A non-empty string of a star starts with a non-empty string of its
    body. *)
Lemma matches_star_cons_inv r c (s : string) :
  matches (Star r) (String c s) ->
  exists s1 s2, s = s1 +:+ s2 /\ matches r (String c s1)
                /\ matches (Star r) s2.
Proof.
  intros H. remember (Star r) as r' eqn:Er. remember (String c s) as t eqn:Et.
  revert s Et. induction H as [| | | | | |r0 s1 s2 H1 _ H2 IH2];
    intros u Et; try discriminate.
  injection Er as ->.
  apply app_cons_inv in Et as [[-> ->] | (a' & -> & ->)].
  - by apply IH2.
  - eauto.
Qed.

Lemma deriv_matches c r : forall s,
  matches (deriv c r) s <-> matches r (String c s).
Proof.
  induction r as [| |p|r1 IH1 r2 IH2|r1 IH1 r2 IH2|r IH]; intros s; simpl.
  - split; inversion 1.
  - split; inversion 1.
  - destruct (p c) eqn:Hp; split.
    + inversion 1; subst. by constructor.
    + inversion 1; subst. constructor.
    + inversion 1.
    + inversion 1; subst. congruence.
  - assert (matches (Seq (deriv c r1) r2) s
            -> matches (Seq r1 r2) (String c s)) as Hleft.
    { inversion 1 as [| |? ? s1 s2 H1 H2| | | |]; subst.
      apply IH1 in H1. apply (matches_seq _ _ _ _ H1 H2). }
    destruct (nullable r1) eqn:Hn; split.
    + inversion 1 as [| | |? ? ? Hl|? ? ? Hr| |]; subst; [by apply Hleft |].
      apply IH2 in Hr. apply nullable_matches in Hn.
      apply (matches_seq _ _ "" _ Hn Hr).
    + inversion 1 as [| |? ? s1 s2 H1 H2 Hr Hs| | | |]; subst.
      apply app_cons_inv in Hs as [[-> ->] | (a' & -> & ->)].
      * apply matches_alt_r. by apply IH2.
      * apply matches_alt_l. apply matches_seq; [by apply IH1 | done].
    + apply Hleft.
    + inversion 1 as [| |? ? s1 s2 H1 H2 Hr Hs| | | |]; subst.
      apply app_cons_inv in Hs as [[-> ->] | (a' & -> & ->)].
      * apply nullable_matches in H1. congruence.
      * apply matches_seq; [by apply IH1 | done].
  - split.
    + inversion 1; subst; [apply matches_alt_l | apply matches_alt_r];
        first [by apply IH1 | by apply IH2].
    + inversion 1; subst; [apply matches_alt_l | apply matches_alt_r];
        first [by apply IH1 | by apply IH2].
  - split.
    + inversion 1 as [| |? ? s1 s2 H1 H2| | | |]; subst.
      apply IH in H1. apply (matches_star_cons _ _ _ H1 H2).
    + intros (s1 & s2 & -> & H1 & H2)%matches_star_cons_inv.
      apply matches_seq; [by apply IH | done].
Qed.

(** [test] answers whether the whole string is in the language. *)
Lemma test_matches r s : test r s = true <-> matches r s.
Proof.
  revert r. induction s as [|c s IH]; intros r; simpl.
  - apply nullable_matches.
  - rewrite IH. apply deriv_matches.
Qed.

(** *** Classes and their repetitions *)

Lemma matches_class_inv p (s : string) :
  matches (Class p) s <-> exists c, s = String c "" /\ p c = true.
Proof.
  split.
  - inversion 1; subst. eauto.
  - intros (c & -> & Hp). by constructor.
Qed.

Lemma matches_char_inv c (s : string) :
  matches (Char c) s <-> s = String c "".
Proof.
  unfold Char. rewrite matches_class_inv. split.
  - intros (x & -> & Hx). by apply Ascii.eqb_eq in Hx as ->.
  - intros ->. exists c. split; [done | apply Ascii.eqb_refl].
Qed.

Lemma matches_seq_inv r1 r2 (s : string) :
  matches (Seq r1 r2) s
  <-> exists s1 s2, s = s1 +:+ s2 /\ matches r1 s1 /\ matches r2 s2.
Proof.
  split.
  - inversion 1; subst. eauto.
  - intros (s1 & s2 & -> & H1 & H2). by constructor.
Qed.

Lemma all_app p (a b : string) : all p (a +:+ b) = all p a && all p b.
Proof.
  induction a as [|c a IH]; simpl; [done |]. rewrite IH. apply andb_assoc.
Qed.

Lemma matches_star_class p (s : string) :
  matches (Star (Class p)) s <-> all p s = true.
Proof.
  split.
  - intros H. remember (Star (Class p)) as r eqn:Er.
    induction H as [| | | | | |r0 s1 s2 H1 _ H2 IH2]; try discriminate;
      [done |].
    injection Er as ->. apply matches_class_inv in H1 as (c & -> & Hc).
    simpl. rewrite Hc. by apply IH2.
  - induction s as [|c s IH]; simpl; [constructor |].
    intros [Hc Hs]%andb_true_iff.
    apply (matches_star_cons _ (String c "") s); [by constructor | auto].
Qed.

Lemma matches_plus_class p (s : string) :
  matches (Plus (Class p)) s <-> s <> "" /\ all p s = true.
Proof.
  unfold Plus. rewrite matches_seq_inv. split.
  - intros (s1 & s2 & -> & (c & -> & Hc)%matches_class_inv
            & Hs%matches_star_class).
    simpl. by rewrite Hc, Hs.
  - destruct s as [|c s]; [by intros [? _] |].
    simpl. intros [_ [Hc Hs]%andb_true_iff].
    exists (String c ""), s. split; [done |].
    split; [by constructor | by apply matches_star_class].
Qed.

Lemma matches_power_class p n (s : string) :
  matches (Power n (Class p)) s
  <-> String.length s = n /\ all p s = true.
Proof.
  revert s. induction n as [|n IH]; intros s; simpl.
  - split.
    + inversion 1; subst. done.
    + destruct s; [constructor | by intros [? _]].
  - rewrite matches_seq_inv. split.
    + intros (s1 & s2 & -> & (c & -> & Hc)%matches_class_inv & [Hl Hs]%IH).
      simpl. by rewrite Hc, Hl, Hs.
    + destruct s as [|c s]; [by intros [? _] |].
      simpl. intros [[= Hl] [Hc Hs]%andb_true_iff].
      exists (String c ""), s. split; [done |].
      split; [by constructor | by apply IH].
Qed.

Lemma matches_power_opt_class p n (s : string) :
  matches (Power n (Opt (Class p))) s
  <-> (String.length s <= n)%nat /\ all p s = true.
Proof.
  revert s. induction n as [|n IH]; intros s; simpl.
  - split.
    + inversion 1; subst. done.
    + destruct s; [constructor | simpl; intros [? _]; lia].
  - rewrite matches_seq_inv. split.
    + intros (s1 & s2 & -> & H1 & [Hl Hs]%IH). unfold Opt in H1.
      inversion H1 as [| | |? ? ? He|? ? ? Hc| |]; subst.
      * inversion He; subst. simpl. split; [lia | done].
      * apply matches_class_inv in Hc as (c & -> & Hc).
        simpl. rewrite Hc, Hs. split; [lia | done].
    + intros [Hl Hs]. destruct s as [|c s].
      * exists "", "". split; [done |].
        split; [apply matches_alt_l; constructor |].
        apply IH. simpl. split; [lia | done].
      * simpl in Hl, Hs. apply andb_true_iff in Hs as [Hc Hs].
        exists (String c ""), s. split; [done |].
        split; [apply matches_alt_r; by constructor |].
        apply IH. split; [lia | done].
Qed.

(** A string cut after its first [n] characters. *)
Lemma split_at (n : nat) (s : string) :
  (n <= String.length s)%nat ->
  exists s1 s2, s = s1 +:+ s2 /\ String.length s1 = n.
Proof.
  revert s. induction n as [|n IH]; intros s Hn.
  - by exists "", s.
  - destruct s as [|c s]; simpl in Hn; [lia |].
    destruct (IH s ltac:(lia)) as (s1 & s2 & -> & Hl).
    exists (String c s1), s2. simpl. by rewrite Hl.
Qed.

Lemma matches_repeat_class p lo hi (s : string) :
  (lo <= hi)%nat ->
  matches (Repeat lo hi (Class p)) s
  <-> (lo <= String.length s <= hi)%nat /\ all p s = true.
Proof.
  intros Hlh. unfold Repeat. rewrite matches_seq_inv. split.
  - intros (s1 & s2 & -> & [Hl1 Hp1]%matches_power_class
            & [Hl2 Hp2]%matches_power_opt_class).
    rewrite length_app_str, all_app, Hp1, Hp2. split; [lia | done].
  - intros [Hl Hp].
    destruct (split_at lo s ltac:(lia)) as (s1 & s2 & -> & Hl1).
    rewrite length_app_str in Hl. rewrite all_app in Hp.
    apply andb_true_iff in Hp as [Hp1 Hp2].
    exists s1, s2. split; [done |].
    split; [by apply matches_power_class |].
    apply matches_power_opt_class. split; [lia | done].
Qed.

End RegexFacts.

(** ** The two patterns of the apply form *)

(** X1. [emailRe] accepts exactly the strings of the shape
    [local@domain.tld], each of the three parts being a non-empty run of
    characters that are neither white space nor an at sign (the domain
    part may itself hold dots). *)
Theorem emailRe_accepts_iff (s : string) :
  Regex.test emailRe s = true
  <-> exists a b c,
        s = a +:+ "@" +:+ b +:+ "." +:+ c
        /\ Spec.word a /\ Spec.word b /\ Spec.word c.
Proof.
  rewrite test_matches. unfold emailRe. cbv zeta. rewrite matches_seq_inv.
  split.
  - intros (a & t1 & -> & Ha%matches_plus_class & H1).
    apply matches_seq_inv in H1
      as (at_ & t2 & -> & ->%matches_char_inv & H2).
    apply matches_seq_inv in H2 as (b & t3 & -> & Hb%matches_plus_class & H3).
    apply matches_seq_inv in H3
      as (dot & c & -> & ->%matches_char_inv & Hc%matches_plus_class).
    exists a, b, c. done.
  - intros (a & b & c & -> & Ha & Hb & Hc).
    exists a, ("@" +:+ b +:+ "." +:+ c).
    split; [done |]. split; [by apply matches_plus_class |].
    apply matches_seq_inv. exists "@", (b +:+ "." +:+ c).
    split; [done |]. split; [by apply matches_char_inv |].
    apply matches_seq_inv. exists b, ("." +:+ c).
    split; [done |]. split; [by apply matches_plus_class |].
    apply matches_seq_inv. exists ".", c.
    split; [done |]. split; [by apply matches_char_inv |].
    by apply matches_plus_class.
Qed.

(** X2. [phoneRe] accepts exactly the strings of 7 to 20 characters
    that are all digits, plus signs, hyphens or white space. *)
Theorem phoneRe_accepts_iff (s : string) :
  Regex.test phoneRe s = true
  <-> (7 <= String.length s <= 20)%nat /\ Spec.all Spec.phone_char s = true.
Proof.
  rewrite test_matches. unfold phoneRe.
  apply matches_repeat_class. lia.
Qed.

(** ** The two stores side by side *)

Section StoreExtras.

Variable cfg : Config.

Lemma readJobs_writeApplications apps d :
  readJobs cfg (writeApplications cfg apps d) = readJobs cfg d.
Proof.
  apply readJobs_agree. unfold writeApplications, write_store,
    Fs.writeFileSync.
  apply lookup_insert_ne. intros E. symmetry in E.
  by apply jobs_file_not_apps_file in E.
Qed.

End StoreExtras.

(** X3. The application store reads back what was written to it, record
    for record and in order, and the two stores do not disturb each other:
    after both are written, in either order, each reads back its own
    list. *)
Theorem stores_read_back_side_by_side (cfg : Config) (jobs : list Job.t)
    (apps : list Application.t) (d : gmap string string) :
  readApplications cfg (writeApplications cfg apps d) = apps
  /\ readApplications cfg (writeApplications cfg apps (writeJobs cfg jobs d))
     = apps
  /\ readJobs cfg (writeApplications cfg apps (writeJobs cfg jobs d)) = jobs
  /\ readApplications cfg (writeJobs cfg jobs (writeApplications cfg apps d))
     = apps
  /\ readJobs cfg (writeJobs cfg jobs (writeApplications cfg apps d)) = jobs.
Proof.
  rewrite !readApplications_writeJobs, !readJobs_writeApplications,
    !readApplications_writeApplications, !readJobs_writeJobs.
  repeat split.
Qed.

(** ** sendEmailJS and the mail log *)

Section MailExtras.

Variable cfg : Config.

Lemma sendEmailJS_returns net tid params w :
  (sendEmailJS cfg net tid params w).2 = None
  <-> mailerConfigured cfg = true /\ net = FetchOk.
Proof.
  unfold sendEmailJS. destruct (mailerConfigured cfg); simpl.
  - destruct net; simpl; split; (done || intros [_ ?]; done || auto).
  - split; [done | by intros [? _]].
Qed.

Lemma sendEmailJS_returns_bool net tid params w :
  match (sendEmailJS cfg net tid params w).2 with
  | None => mailerConfigured cfg && Spec.fetch_ok net = true
  | Some _ => mailerConfigured cfg && Spec.fetch_ok net = false
  end.
Proof.
  unfold sendEmailJS. destruct (mailerConfigured cfg); [| done].
  by destruct net.
Qed.


Lemma notify_rejection_logs clk net application title params w :
  exists entry,
    disk (notify_rejection cfg clk net application title params w)
    = Fs.appendFileSync (disk w) (MAIL_LOG cfg)
        (mail_log_line (log_iso clk) entry)
    /\ Json.get "sent" entry
       = Some (Json.JBool (mailerConfigured cfg && Spec.fetch_ok net))
    /\ Json.get "to" entry
       = Some (Json.JStr (Application.email application)).
Proof.
  unfold notify_rejection.
  pose proof (sendEmailJS_returns_bool net (EMAILJS_TEMPLATE_ID_REJECT cfg)
                params w) as Hr.
  pose proof (sendEmailJS_disk cfg net (EMAILJS_TEMPLATE_ID_REJECT cfg)
                params w) as Hd.
  destruct (mailerConfigured cfg) eqn:Hc.
  - destruct (sendEmailJS _ _ _ _ _) as [w1 [err|]]; cbn [fst snd] in Hr, Hd;
      cbn [logMailAttempt say with_disk disk]; rewrite Hd, Hr;
      eexists; (split; [reflexivity |]); split; reflexivity.
  - cbn [logMailAttempt say with_disk disk andb].
    eexists; (split; [reflexivity |]); split; reflexivity.
Qed.

Lemma appendFileSync_lookup (d : gmap string string) p data :
  Fs.appendFileSync d p data !! p = Some (default "" (d !! p) +:+ data)
  /\ forall q, q <> p -> Fs.appendFileSync d p data !! q = d !! q.
Proof.
  unfold Fs.appendFileSync. split; [apply lookup_insert_eq |].
  intros q Hq. by apply lookup_insert_ne.
Qed.

Lemma notify_rejection_elsewhere clk net application title params w q :
  q <> MAIL_LOG cfg ->
  disk (notify_rejection cfg clk net application title params w) !! q
  = disk w !! q.
Proof.
  intros Hq.
  destruct (notify_rejection_logs clk net application title params w)
    as (entry & -> & _).
  by apply appendFileSync_lookup.
Qed.

End MailExtras.

(** X4. [sendEmailJS] returns (rather than throws) exactly when the
    mailer is configured and the API answers with a success status.
    Unconfigured, it throws at once and touches nothing; configured, it
    makes one POST to the EmailJS address whose body carries the defined
    template parameters, whatever the answer; an error status is thrown
    with the status and the body of the answer in its message.  It never
    writes to the disk. *)
Theorem sendEmailJS_outcome (cfg : Config) (net : FetchOutcome)
    (tid : option string) (params : list (string * option string))
    (w : World) :
  let out := sendEmailJS cfg net tid params w in
  (out.2 = None <-> mailerConfigured cfg = true /\ net = FetchOk)
  /\ disk out.1 = disk w
  /\ (mailerConfigured cfg = false ->
      out = (w, Some "Error: EmailJS not configured."))
  /\ (mailerConfigured cfg = true ->
      exists c,
        network out.1 = network w ++ [c]
        /\ fetch_url c = "https://api.emailjs.com/api/v1.0/email/send"
        /\ fetch_method c = "POST"
        /\ sent_template_params c = Some (params_json params))
  /\ (forall status text,
         mailerConfigured cfg = true -> net = FetchStatus status text ->
         out.2 = Some ("Error: EmailJS API failed with status "
                         +:+ Str.of_Z status +:+ ": " +:+ text)).
Proof.
  intros out. split; [apply sendEmailJS_returns |].
  split; [apply sendEmailJS_disk |]. split; [| split].
  - intros Hc. unfold out, sendEmailJS. by rewrite Hc.
  - intros Hc. exists (mail_call cfg tid params).
    unfold out. rewrite sendEmailJS_network, Hc.
    split; [done |]. split; [done |]. split; [done |].
    apply sent_template_params_mail_call.
  - intros status text Hc ->. unfold out, sendEmailJS. by rewrite Hc.
Qed.


(** ** The apply route, branch by branch *)

Section ApplyExtras.

Variable cfg : Config.

Lemma remove_upload_cases file (d : gmap string string) :
  remove_upload file d = d
  \/ exists f, file = Some f /\ remove_upload file d = delete (path f) d.
Proof.
  destruct file as [f|]; [| by left]. unfold remove_upload.
  destruct (_ && _); [| by left].
  right. exists f. split; [done | apply try_unlink_delete].
Qed.

(** The callback either stores the record and renders the success page,
    or renders something else, and then it has at most unlinked the
    upload. *)
Lemma apply_callback_shape clk net req err file w :
  let out := apply_callback cfg clk net req err file w in
  ((forall job app, out.2 <> RenderApplySuccess job app)
   /\ network out.1 = network w
   /\ console out.1 = console w
   /\ (disk out.1 = disk w
       \/ exists f, file = Some f /\ disk out.1 = delete (path f) (disk w)))
  \/ (exists job f data,
         List.find (fun j => same_id (Job.id j) (apply_id req))
           (readJobs cfg (disk w)) = Some job
         /\ err = None /\ file = Some f
         /\ disk w !! path f = Some data
         /\ passes_validation req data
         /\ let app := new_application clk job (apply_body req) (path f) in
            let form := submitted_form (apply_body req) in
            out = (notify_confirmation cfg clk net job app
                     (confirm_params cfg job (form_name form)
                        (form_email form) (form_phone form) (form_cover form))
                     (with_disk w
                        (writeApplications cfg
                           (readApplications cfg (disk w) ++ [app])
                           (disk w))),
                   RenderApplySuccess job app)).
Proof.
  intros out. unfold out, apply_callback.
  destruct (List.find _ _) as [job|] eqn:Hjob;
    [| left; cbn; repeat split; auto; done].
  assert (forall error d,
             (d = disk w \/ exists f, file = Some f /\ d = delete (path f) (disk w)) ->
             let o := (with_disk w d,
                       RenderApply job error (submitted_form (apply_body req))) in
             (forall j a, o.2 <> RenderApplySuccess j a)
             /\ network o.1 = network w /\ console o.1 = console w
             /\ (disk o.1 = disk w
                 \/ exists f, file = Some f /\ disk o.1 = delete (path f) (disk w)))
    as Hfail by (intros; cbn; repeat split; auto; done).
  destruct err as [message|];
    [left; apply Hfail, remove_upload_cases |].
  destruct (Str.truthy (body_name (apply_body req))) eqn:En; cbn [negb orb];
    [| left; apply Hfail, remove_upload_cases].
  destruct (Str.truthy (body_email (apply_body req))) eqn:Ee; cbn [negb orb];
    [| left; apply Hfail, remove_upload_cases].
  destruct (Str.truthy (body_phone (apply_body req))) eqn:Ep; cbn [negb orb];
    [| left; apply Hfail, remove_upload_cases].
  destruct (Str.truthy (body_cover (apply_body req))) eqn:Ec; cbn [negb orb];
    [| left; apply Hfail, remove_upload_cases].
  destruct (Regex.test emailRe _) eqn:Eem; cbn [negb];
    [| left; apply Hfail, remove_upload_cases].
  destruct (Regex.test phoneRe _) eqn:Eph; cbn [negb];
    [| left; apply Hfail, remove_upload_cases].
  destruct file as [f|]; [| left; cbn; repeat split; auto; done].
  unfold Fs.statSync_size.
  destruct (disk w !! path f) as [data|] eqn:Hdata;
    [| left; cbn; repeat split; auto; done].
  destruct (Z.ltb_spec (Z.of_nat (String.length data)) MIN_RESUME_BYTES)
    as [Hsmall|Hbig].
  { left. apply Hfail. right. exists f. split; [done |].
    apply try_unlink_delete. }
  right. exists job, f, data. unfold passes_validation. repeat split; done.
Qed.

(** What multer hands to the callback. *)
Lemma upload_single_shape now part (d : gmap string string) :
  let up := upload_single cfg now part d in
  (up.2 = None
   /\ (up.1.1 = d
       \/ exists file, part = Some file
            /\ up.1.1
               = delete (Path.join (uploadsDir cfg) (filename now file)) d))
  \/ (exists file,
         part = Some file /\ fileFilter file = None
         /\ Z.of_nat (String.length (content file)) <= MAX_RESUME_BYTES
         /\ up = (Fs.writeFileSync d
                    (Path.join (uploadsDir cfg) (filename now file))
                    (content file),
                  None,
                  Some {| path := Path.join (uploadsDir cfg)
                                    (filename now file) |})).
Proof.
  intros up. unfold up, upload_single.
  destruct part as [file|]; [| left; auto].
  destruct (fileFilter file) eqn:Hf; [left; auto |].
  destruct (Z.ltb_spec MAX_RESUME_BYTES
              (Z.of_nat (String.length (content file)))) as [Hbig|Hok].
  - left. split; [done |]. right. by exists file.
  - right. by exists file.
Qed.

(** The route either stores the record of a submission that meets every
    rule, or stores nothing. *)
Lemma post_jobs_apply_shape clk net req w :
  let out := post_jobs_apply cfg clk net req w in
  ((forall job app, out.2 <> RenderApplySuccess job app)
   /\ network out.1 = network w
   /\ console out.1 = console w
   /\ (forall q, (forall n, q <> Path.join (uploadsDir cfg) n) ->
                 disk out.1 !! q = disk w !! q))
  \/ (exists job file,
         List.find (fun j => same_id (Job.id j) (apply_id req))
           (readJobs cfg (disk w)) = Some job
         /\ apply_file req = Some file
         /\ fileFilter file = None
         /\ Z.of_nat (String.length (content file)) <= MAX_RESUME_BYTES
         /\ passes_validation req (content file)
         /\ out.2
            = RenderApplySuccess job
                (new_application clk job (apply_body req)
                   (Path.join (uploadsDir cfg)
                      (filename (upload_ms clk) file)))).
Proof.
  intros out. unfold out, post_jobs_apply.
  pose proof (upload_single_elsewhere cfg (upload_ms clk) (apply_file req)
                (disk w)) as Helse.
  pose proof (upload_single_jobs cfg (upload_ms clk) (apply_file req)
                (disk w)) as Hjobs.
  destruct (upload_single_shape (upload_ms clk) (apply_file req) (disk w))
    as [[Hnone Hd] | (file & Hfile & Hfilter & Hmax & Hup)].
  - destruct (upload_single _ _ _ _) as [[d err] file].
    cbn [fst snd] in *. subst file.
    destruct (apply_callback_shape clk net req err None (with_disk w d))
      as [(Hno & Hn & Hc & Hdisk) | (job & f & data & _ & _ & [=] & _)].
    left. split; [done |]. split; [done |]. split; [done |].
    intros q Hq. destruct Hdisk as [-> | (f & [=] & _)].
    by apply Helse.
  - rewrite Hup in *. cbn [fst snd] in *.
    set (p := Path.join (uploadsDir cfg) (filename (upload_ms clk) file)) in *.
    destruct (apply_callback_shape clk net req None (Some {| path := p |})
                (with_disk w (Fs.writeFileSync (disk w) p (content file))))
      as [(Hno & Hn & Hc & Hdisk)
         | (job & f & data & Hjob & _ & [= <-] & Hdata & Hvalid & Hout)].
    + left. split; [done |]. split; [done |]. split; [done |].
      intros q Hq. cbn [disk with_disk] in Hdisk.
      destruct Hdisk as [-> | (f & [= <-] & ->)]; cbn [path].
      * by apply Helse.
      * rewrite lookup_delete_ne by (intros E; by apply (Hq (filename (upload_ms clk) file))).
        by apply Helse.
    + right. exists job, file. cbn [disk with_disk path] in *.
      rewrite Hjobs in Hjob.
      unfold Fs.writeFileSync in Hdata. rewrite lookup_insert_eq in Hdata.
      injection Hdata as <-.
      do 5 (split; [done |]). cbv beta iota. by rewrite Hout.
Qed.

End ApplyExtras.

(** X6. POST /jobs/:id/apply never changes the job store, and it changes
    the application store in one way only: when it renders the success
    page, it has appended exactly the record it shows, whose [jobId] is the
    id of the job found and whose [id] is the clock reading; whenever it
    answers anything else, the application store reads as before and no
    call went to the network. *)
Theorem apply_stores_on_success_only (cfg : Config) (clk : Clock)
    (net : FetchOutcome) (req : ApplyRequest) (w : World) :
  let out := post_jobs_apply cfg clk net req w in
  let apps := readApplications cfg (disk w) in
  let apps' := readApplications cfg (disk out.1) in
  readJobs cfg (disk out.1) = readJobs cfg (disk w)
  /\ ((exists job app,
          out.2 = RenderApplySuccess job app
          /\ apps' = apps ++ [app]
          /\ same_id (Job.id job) (apply_id req) = true
          /\ Application.jobId app = Job.id job
          /\ Application.id app = now_ms clk)
      \/ ((forall job app, out.2 <> RenderApplySuccess job app)
          /\ apps' = apps
          /\ network out.1 = network w)).
Proof.
  intros out apps apps'.
  destruct (post_jobs_apply_shape cfg clk net req w)
    as [(Hno & Hn & _ & Hd)
       | (job & file & Hjob & Hfile & Hfilter & Hmax & Hvalid & Hout)].
  - split; [| right; split; [done | split; [| done]]].
    + apply readJobs_agree, Hd. intros n E. symmetry in E.
      by apply upload_not_jobs_file in E.
    + apply readApplications_agree, Hd. intros n E. symmetry in E.
      by apply upload_not_apps_file in E.
  - pose proof (post_jobs_apply_valid cfg clk net req file job w
                  Hjob Hfile Hfilter Hmax Hvalid) as Heq.
    cbv zeta in Heq. unfold apps', out. rewrite Heq. cbn [fst snd]. split.
    + rewrite <- (readJobs_writeApplications cfg
                    (readApplications cfg (disk w) ++
                     [new_application clk job (apply_body req)
                        (Path.join (uploadsDir cfg)
                           (filename (upload_ms clk) file))])
                    (disk w)).
      apply readJobs_agree.
      rewrite notify_confirmation_elsewhere by apply not_eq_sym, mail_log_not_jobs_file.
      cbn [disk with_disk].
      unfold writeApplications, write_store, Fs.writeFileSync.
      rewrite !lookup_insert_ne;
        first [done | apply upload_not_jobs_file
              | apply not_eq_sym, jobs_file_not_apps_file].
    + left. eexists job, _. split; [reflexivity |]. split.
      * rewrite (readApplications_agree cfg
                   (writeApplications cfg
                      (readApplications cfg (disk w) ++
                       [new_application clk job (apply_body req)
                          (Path.join (uploadsDir cfg)
                             (filename (upload_ms clk) file))])
                      (Fs.writeFileSync (disk w)
                         (Path.join (uploadsDir cfg)
                            (filename (upload_ms clk) file))
                         (content file)))).
        -- apply readApplications_writeApplications.
        -- apply notify_confirmation_elsewhere, not_eq_sym,
             mail_log_not_apps_file.
      * split; [| done].
        apply find_some in Hjob as [_ Hj]. exact Hj.
Qed.

(** X7. The success page is only ever rendered for a submission that
    meets every rule: a job with the requested id is in the store, a file
    came with the form, its extension passes the filter, its size is
    between 50 KB and 5 MB inclusive, the four fields are filled in, and
    the email and the phone match their patterns.  The record shown is the
    one built from that submission. *)
Theorem apply_success_only_if_valid (cfg : Config) (clk : Clock)
    (net : FetchOutcome) (req : ApplyRequest) (w : World)
    (job : Job.t) (app : Application.t) :
  (post_jobs_apply cfg clk net req w).2 = RenderApplySuccess job app ->
  exists file,
    apply_file req = Some file
    /\ fileFilter file = None
    /\ 51200 <= Z.of_nat (String.length (content file)) <= 5242880
    /\ passes_validation req (content file)
    /\ List.find (fun j => same_id (Job.id j) (apply_id req))
         (readJobs cfg (disk w)) = Some job
    /\ app = new_application clk job (apply_body req)
               (Path.join (uploadsDir cfg) (filename (upload_ms clk) file)).
Proof.
  intros Hout.
  destruct (post_jobs_apply_shape cfg clk net req w)
    as [(Hno & _)
       | (job' & file & Hjob & Hfile & Hfilter & Hmax & Hvalid & Hout')].
  { by destruct (Hno job app). }
  rewrite Hout in Hout'. injection Hout' as -> ->.
  exists file. split; [done |]. split; [done |]. split.
  - destruct Hvalid as (_ & _ & _ & _ & _ & _ & Hmin).
    unfold MIN_RESUME_BYTES, MAX_RESUME_BYTES in *. lia.
  - done.
Qed.

Lemma apply_success_only_if_valid_witness :
  exists file,
    apply_file {| apply_id := "17"; apply_body := Demo.body;
                  apply_file := Some Demo.resume |} = Some file
    /\ fileFilter file = None
    /\ 51200 <= Z.of_nat (String.length (content file)) <= 5242880
    /\ passes_validation
         {| apply_id := "17"; apply_body := Demo.body;
            apply_file := Some Demo.resume |} (content file)
    /\ List.find (fun j => same_id (Job.id j) "17")
         (readJobs Demo.plain (disk (Demo.world Demo.plain)))
       = Some Demo.welder
    /\ new_application Demo.clock Demo.welder Demo.body
         "/srv/site/uploads/2000-Meena_CV.docx"
       = new_application Demo.clock Demo.welder Demo.body
           (Path.join (uploadsDir Demo.plain)
              (filename (upload_ms Demo.clock) file)).
Proof.
  apply (apply_success_only_if_valid Demo.plain Demo.clock FetchOk
           {| apply_id := "17"; apply_body := Demo.body;
              apply_file := Some Demo.resume |}
           (Demo.world Demo.plain) Demo.welder
           (new_application Demo.clock Demo.welder Demo.body
              "/srv/site/uploads/2000-Meena_CV.docx")).
  vm_compute. reflexivity.
Defined.

(** ** Names, paths and references *)

Section NameFacts.
Import Spec.

Variable cfg : Config.

Lemma all_impl (p q : ascii -> bool) (s : string) :
  (forall c, p c = true -> q c = true) -> all p s = true -> all q s = true.
Proof.
  intros Hpq. induction s as [|c s IH]; simpl; [done |].
  intros [Hc Hs]%andb_true_iff. by rewrite (Hpq c Hc), IH.
Qed.

Lemma all_uint (p : ascii -> bool) (u : uint) :
  (forall c, Chars.is_digit c = true -> p c = true) ->
  all p (NilEmpty.string_of_uint u) = true.
Proof.
  intros Hd. induction u; simpl; rewrite ?IHu, ?Hd; done.
Qed.

(** The digits of an integer hold digits and at most a leading minus. *)
Lemma all_of_Z (p : ascii -> bool) (n : Z) :
  (forall c, Chars.is_digit c = true -> p c = true) ->
  p "-"%char = true ->
  all p (Str.of_Z n) = true.
Proof.
  intros Hd Hm. unfold Str.of_Z. destruct n as [|q|q]; simpl.
  - by rewrite Hd.
  - rewrite JsonFacts.string_of_uint_to_uint. by apply all_uint.
  - rewrite Hm, JsonFacts.string_of_uint_to_uint. by apply all_uint.
Qed.

Lemma all_collapse_ws (p : ascii -> bool) in_run (s : string) :
  p "_"%char = true -> all p s = true ->
  all p (Str.collapse_ws_from in_run s) = true.
Proof.
  intros Hu. revert in_run. induction s as [|c s IH]; intros in_run; simpl;
    [done |].
  intros [Hc Hs]%andb_true_iff.
  destruct (Chars.is_space c); [destruct in_run |]; simpl;
    rewrite ?Hu, ?Hc, ?IH; done.
Qed.




Lemma is_digit_plain c :
  Chars.is_digit c = true ->
  negb (Ascii.eqb c "/"%char || Ascii.eqb c "\"%char) = true.
Proof.
  destruct c as [[] [] [] [] [] [] [] []]; intros H; vm_compute in H;
    (discriminate H || reflexivity).
Qed.

Lemma filename_plain now file :
  plain_name (originalname file) = true ->
  plain_name (filename now file) = true.
Proof.
  intros Hn. unfold plain_name, filename. rewrite !all_app.
  rewrite all_of_Z;
    [| intros c Hc; by apply is_digit_plain | reflexivity].
  simpl. by apply all_collapse_ws.
Qed.

Lemma filename_not_empty now file : filename now file <> "".
Proof.
  unfold filename. intros [_ H]%app_empty_inv. discriminate H.
Qed.

(** *** Base names *)

Lemma split_go_slashless (s : string) :
  slashless s = true -> Path.split_go "/" s = (s, []).
Proof.
  unfold slashless. induction s as [|c s IH]; simpl; [done |].
  intros [Hc Hs]%andb_true_iff. apply negb_true_iff in Hc.
  by rewrite IH, Hc.
Qed.

Lemma split_go_app_segment (a f : string) :
  slashless f = true ->
  Path.split_go "/" (a +:+ String "/" f)
  = ((Path.split_go "/" a).1, (Path.split_go "/" a).2 ++ [f]).
Proof.
  intros Hf. induction a as [|c a IH]; simpl.
  - by rewrite split_go_slashless.
  - rewrite IH. destruct (Path.split_go "/" a) as [seg segs].
    by destruct (Ascii.eqb c "/").
Qed.

Lemma split_app_segment (a f : string) :
  slashless f = true ->
  Path.split "/" (a +:+ "/" +:+ f) = Path.split "/" a ++ [f].
Proof.
  intros Hf. unfold Path.split.
  change (a +:+ "/" +:+ f) with (a +:+ String "/" f).
  rewrite split_go_app_segment by done.
  by destruct (Path.split_go "/" a).
Qed.

Lemma last_segment_app (l : list string) (f : string) :
  f <> "" -> Path.last_segment (l ++ [f]) = f.
Proof.
  intros Hf. induction l as [|x l IH]; simpl.
  - by destruct f.
  - rewrite IH. by destruct f.
Qed.

(** The base name of a file directly under a directory is its name. *)
Lemma basename_join (dir f : string) :
  slashless f = true -> f <> "" -> Path.basename (Path.join dir f) = f.
Proof.
  intros Hs Hf. unfold Path.basename, Path.join.
  rewrite split_app_segment by done. by apply last_segment_app.
Qed.

Lemma plain_slashless (s : string) :
  plain_name s = true -> slashless s = true.
Proof.
  apply all_impl. intros c Hc. apply negb_true_iff in Hc.
  apply orb_false_elim in Hc as [-> _]. done.
Qed.

Lemma replace_char_absent a b (s : string) :
  all (fun c => negb (Ascii.eqb c a)) s = true -> Str.replace_char a b s = s.
Proof.
  induction s as [|c s IH]; simpl; [done |].
  intros [Hc Hs]%andb_true_iff. apply negb_true_iff in Hc.
  by rewrite Hc, IH.
Qed.

Lemma replace_char_same a (s : string) : Str.replace_char a a s = s.
Proof.
  induction s as [|c s IH]; simpl; [done |]. rewrite IH.
  destruct (Ascii.eqb_spec c a); by subst.
Qed.

(** A reference to an upload names the file of that name in the upload
    directory. *)
Lemma upload_reference_resolves (n : string) :
  plain_name n = true ->
  resume_full_path cfg ("/uploads/" +:+ n) = Path.join (uploadsDir cfg) n.
Proof.
  intros Hn. unfold resume_full_path, uploadsDir, Path.join.
  cbn [Str.strip_leading_slashes String.append Ascii.eqb Bool.eqb].
  rewrite replace_char_same. cbn [Str.replace_char Ascii.eqb Bool.eqb].
  rewrite replace_char_absent.
  - by rewrite !app_assoc_str.
  - revert Hn. apply all_impl. intros c Hc. apply negb_true_iff in Hc.
    apply orb_false_elim in Hc as [_ ->]. done.
Qed.

Lemma new_application_resume clk job body now file :
  plain_name (originalname file) = true ->
  Application.resume
    (new_application clk job body
       (Path.join (uploadsDir cfg) (filename now file)))
  = Some ("/uploads/" +:+ filename now file).
Proof.
  intros Hn. unfold new_application. cbn [Application.resume].
  rewrite basename_join;
    [done | by apply plain_slashless, filename_plain
    | apply filename_not_empty].
Qed.

End NameFacts.


(** ** From a submission to its resume, and back *)

Section LifecycleFacts.

Variable cfg : Config.

Lemma of_Z_inj (a b : Z) : Str.of_Z a = Str.of_Z b -> a = b.
Proof.
  unfold Str.of_Z. intros H. apply DecimalZ.to_int_inj.
  assert (forall z, NilZero.int_of_string (NilZero.string_of_int (Z.to_int z))
                    = Some (Z.to_int z)) as Hisi.
  { intros z. apply NilZero.isi; destruct z as [|p|p]; simpl; try done;
      intros [= E]; by apply (DecimalPos.Unsigned.to_uint_nonnil p). }
  pose proof (Hisi a) as Ha. rewrite H, Hisi in Ha. by injection Ha.
Qed.

Lemma same_id_of_Z (a b : Z) : same_id a (Str.of_Z b) = true <-> a = b.
Proof.
  unfold same_id. rewrite String.eqb_eq. split; [apply of_Z_inj | by intros ->].
Qed.

Lemma findIndex_none {A} (p : A -> bool) (l : list A) :
  (forall x, x ∈ l -> p x = false) -> findIndex p l = None.
Proof.
  induction l as [|x l IH]; intros H; simpl; [done |].
  rewrite (H x) by apply list_elem_of_here.
  rewrite IH; [done |]. intros y Hy. apply H. by apply list_elem_of_further.
Qed.

Lemma findIndex_app_fresh {A} (p : A -> bool) (l : list A) (y : A) :
  (forall x, x ∈ l -> p x = false) -> p y = true ->
  findIndex p (l ++ [y]) = Some (length l).
Proof.
  intros H Hy. induction l as [|x l IH]; simpl; [by rewrite Hy |].
  rewrite (H x) by apply list_elem_of_here.
  rewrite IH; [done |]. intros z Hz. apply H. by apply list_elem_of_further.
Qed.

Lemma delete_last {A} (l : list A) (y : A) : delete (length l) (l ++ [y]) = l.
Proof. induction l as [|x l IH]; simpl; [done |]. by rewrite IH. Qed.

(** The disk after a submission that meets every rule, at the upload
    path. *)
Lemma post_jobs_apply_valid_upload clk net req file job w :
  List.find (fun j => same_id (Job.id j) (apply_id req))
    (readJobs cfg (disk w)) = Some job ->
  apply_file req = Some file ->
  fileFilter file = None ->
  Z.of_nat (String.length (content file)) <= MAX_RESUME_BYTES ->
  passes_validation req (content file) ->
  let p := Path.join (uploadsDir cfg) (filename (upload_ms clk) file) in
  let out := post_jobs_apply cfg clk net req w in
  disk out.1 !! p = Some (content file)
  /\ readApplications cfg (disk out.1)
     = readApplications cfg (disk w)
         ++ [new_application clk job (apply_body req) p]
  /\ readJobs cfg (disk out.1) = readJobs cfg (disk w)
  /\ out.2 = RenderApplySuccess job
               (new_application clk job (apply_body req) p).
Proof.
  intros Hjob Hfile Hfilter Hmax Hvalid p out.
  pose proof (post_jobs_apply_valid cfg clk net req file job w
                Hjob Hfile Hfilter Hmax Hvalid) as Heq.
  cbv zeta in Heq. fold p in Heq. unfold out. rewrite Heq. cbn [fst snd].
  assert (forall q, q <> MAIL_LOG cfg -> q <> APPS_FILE cfg ->
            disk (notify_confirmation cfg clk net job
                    (new_application clk job (apply_body req) p)
                    (confirm_params cfg job
                       (form_name (submitted_form (apply_body req)))
                       (form_email (submitted_form (apply_body req)))
                       (form_phone (submitted_form (apply_body req)))
                       (form_cover (submitted_form (apply_body req))))
                    (with_disk w
                       (writeApplications cfg
                          (readApplications cfg (disk w) ++
                           [new_application clk job (apply_body req) p])
                          (Fs.writeFileSync (disk w) p (content file)))))
            !! q
            = Fs.writeFileSync (disk w) p (content file) !! q) as Hq.
  { intros q Hm Ha. rewrite notify_confirmation_elsewhere by done.
    cbn [disk with_disk]. unfold writeApplications, write_store.
    unfold Fs.writeFileSync at 1. by rewrite lookup_insert_ne. }
  split; [| split; [| split; [| done]]].
  - rewrite Hq.
    + apply lookup_insert_eq.
    + apply not_eq_sym, data_not_uploads.
    + apply upload_not_apps_file.
  - rewrite (readApplications_agree cfg
               (writeApplications cfg
                  (readApplications cfg (disk w) ++
                   [new_application clk job (apply_body req) p])
                  (Fs.writeFileSync (disk w) p (content file)))).
    + apply readApplications_writeApplications.
    + apply notify_confirmation_elsewhere, not_eq_sym, mail_log_not_apps_file.
  - apply readJobs_agree. rewrite Hq.
    + apply lookup_insert_ne, upload_not_jobs_file.
    + apply not_eq_sym, mail_log_not_jobs_file.
    + apply jobs_file_not_apps_file.
Qed.

End LifecycleFacts.

(** X9. After a submission that meets every rule, with a file name free
    of separators, the record stored refers to its resume as
    [/uploads/<stored name>], the file of that name is on the disk with
    the uploaded content, and the path the delete and reject handlers
    compute from the reference is the path of that file. *)
Theorem stored_reference_names_the_upload (cfg : Config) (clk : Clock)
    (net : FetchOutcome) (req : ApplyRequest) (file : FilePart)
    (job : Job.t) (w : World) :
  List.find (fun j => same_id (Job.id j) (apply_id req))
    (readJobs cfg (disk w)) = Some job ->
  apply_file req = Some file ->
  fileFilter file = None ->
  Z.of_nat (String.length (content file)) <= MAX_RESUME_BYTES ->
  passes_validation req (content file) ->
  Spec.plain_name (originalname file) = true ->
  let name := filename (upload_ms clk) file in
  let out := post_jobs_apply cfg clk net req w in
  exists app,
    out.2 = RenderApplySuccess job app
    /\ app ∈ readApplications cfg (disk out.1)
    /\ Application.resume app = Some ("/uploads/" +:+ name)
    /\ resume_full_path cfg ("/uploads/" +:+ name)
       = Path.join (uploadsDir cfg) name
    /\ disk out.1 !! resume_full_path cfg ("/uploads/" +:+ name)
       = Some (content file).
Proof.
  intros Hjob Hfile Hfilter Hmax Hvalid Hplain name out.
  destruct (post_jobs_apply_valid_upload cfg clk net req file job w
              Hjob Hfile Hfilter Hmax Hvalid) as (Hd & Happs & _ & Hres).
  fold name out in Hd, Happs, Hres.
  pose proof (filename_plain (upload_ms clk) file Hplain) as Hname.
  fold name in Hname.
  exists (new_application clk job (apply_body req)
            (Path.join (uploadsDir cfg) name)).
  split; [done |]. split.
  { rewrite Happs. apply elem_of_app. right. apply list_elem_of_here. }
  split; [by apply new_application_resume |].
  rewrite upload_reference_resolves by done. done.
Qed.

Lemma stored_reference_names_the_upload_witness :
  let req := {| apply_id := "17"; apply_body := Demo.body;
                apply_file := Some Demo.resume |} in
  let name := filename (upload_ms Demo.clock) Demo.resume in
  let out := post_jobs_apply Demo.mailing Demo.clock
               (FetchStatus 503 "busy") req (Demo.world Demo.mailing) in
  exists app,
    out.2 = RenderApplySuccess Demo.welder app
    /\ app ∈ readApplications Demo.mailing (disk out.1)
    /\ Application.resume app = Some ("/uploads/" +:+ name)
    /\ resume_full_path Demo.mailing ("/uploads/" +:+ name)
       = Path.join (uploadsDir Demo.mailing) name
    /\ disk out.1 !! resume_full_path Demo.mailing ("/uploads/" +:+ name)
       = Some (content Demo.resume).
Proof.
  intros req.
  apply (stored_reference_names_the_upload Demo.mailing Demo.clock
           (FetchStatus 503 "busy") req Demo.resume Demo.welder
           (Demo.world Demo.mailing)).
  - vm_compute. reflexivity.
  - reflexivity.
  - reflexivity.
  - vm_compute. discriminate.
  - unfold passes_validation. repeat split; vm_compute; congruence.
  - reflexivity.
Defined.

(** ** The delete routes: what goes and what stays *)

Section DeleteExtras.

Variable cfg : Config.

Lemma remove_resume_other resume (d : gmap string string) q :
  (forall r, resume = Some r -> resume_full_path cfg r <> q) ->
  remove_resume cfg resume d !! q = d !! q.
Proof.
  intros Hq. unfold remove_resume.
  destruct resume as [[|c r]|]; simpl; try done.
  rewrite unlink_if_exists_delete. apply lookup_delete_ne. by apply Hq.
Qed.


(** A file that no swept record refers to is left alone. *)
Lemma swept_other (matches : Application.t -> bool)
    (apps : list Application.t) d q :
  (forall a r, a ∈ apps -> matches a = true ->
               Application.resume a = Some r ->
               resume_full_path cfg r <> q) ->
  swept cfg matches apps d !! q = d !! q.
Proof.
  revert d. induction apps as [|a apps IH]; intros d Hq; simpl; [done |].
  rewrite IH.
  - destruct (matches a) eqn:Hm; [| done].
    apply remove_resume_other. intros r Hr.
    by apply (Hq a r); [apply list_elem_of_here | |].
  - intros b r Hb. apply Hq. by apply list_elem_of_further.
Qed.


Lemma post_admin_applications_delete_session user id w :
  post_admin_applications_delete cfg
    {| session_user := Some user; admin_id := id |} w
  = (with_disk w
       (writeApplications cfg
          (List.filter (fun app => negb (same_id (Application.id app) id))
             (readApplications cfg (disk w)))
          (swept cfg (fun app => same_id (Application.id app) id)
             (readApplications cfg (disk w)) (disk w))),
     Redirect "/admin").
Proof.
  unfold post_admin_applications_delete. cbn [session_user admin_id].
  by rewrite sweep_spec.
Qed.

Lemma filter_all_true {A} (p : A -> bool) (l : list A) :
  (forall x, x ∈ l -> p x = true) -> List.filter p l = l.
Proof.
  induction l as [|x l IH]; intros H; simpl; [done |].
  rewrite (H x) by apply list_elem_of_here.
  rewrite IH; [done |]. intros y Hy. apply H. by apply list_elem_of_further.
Qed.

Lemma elem_of_filter_bool {A} (p : A -> bool) (l : list A) x :
  x ∈ List.filter p l <-> x ∈ l /\ p x = true.
Proof. rewrite !list_elem_of_In. apply filter_In. Qed.

(** The applications a request leaves were there before it, for the
    three routes that remove. *)
Lemma post_admin_jobs_delete_subset req w a :
  a ∈ readApplications cfg (disk (post_admin_jobs_delete cfg req w).1) ->
  a ∈ readApplications cfg (disk w).
Proof.
  destruct req as [[user|] id]; [| done].
  rewrite post_admin_jobs_delete_session. cbn [fst disk with_disk].
  rewrite readApplications_writeApplications.
  by intros [? _]%elem_of_filter_bool.
Qed.

Lemma post_admin_applications_delete_subset req w a :
  a ∈ readApplications cfg
        (disk (post_admin_applications_delete cfg req w).1) ->
  a ∈ readApplications cfg (disk w).
Proof.
  destruct req as [[user|] id]; [| done].
  rewrite post_admin_applications_delete_session. cbn [fst disk with_disk].
  rewrite readApplications_writeApplications.
  by intros [? _]%elem_of_filter_bool.
Qed.

Lemma post_admin_applications_reject_subset clk net req w a :
  a ∈ readApplications cfg
        (disk (post_admin_applications_reject cfg clk net req w).1) ->
  a ∈ readApplications cfg (disk w).
Proof.
  destruct req as [[user|] id]; [| done].
  destruct (findIndex (fun app => same_id (Application.id app) id)
              (readApplications cfg (disk w))) as [i|] eqn:Hi.
  - destruct (findIndex_lookup _ _ _ Hi) as (b & Hb & _).
    rewrite (post_admin_applications_reject_found cfg clk net user id w i b
               Hi Hb).
    cbn [fst disk say with_disk].
    rewrite readApplications_writeApplications.
    apply list_elem_of_delete_inv.
  - unfold post_admin_applications_reject. cbn [session_user admin_id].
    by rewrite Hi.
Qed.

End DeleteExtras.



(** X12. A request that names an id nothing has changes no record.
    Rejecting an id that no application has only writes a line to the
    console: no mail, no log line, no file touched.  Deleting an
    application id that no application has leaves the store with the same
    records and every other file as it was.  Deleting a job id that no job
    has and no application refers to leaves both stores with the same
    records. *)
Theorem unknown_id_changes_no_record (cfg : Config) (clk : Clock)
    (net : FetchOutcome) (user id : string) (w : World) :
  let req := {| session_user := Some user; admin_id := id |} in
  let jobs := readJobs cfg (disk w) in
  let apps := readApplications cfg (disk w) in
  ((forall app, app ∈ apps -> same_id (Application.id app) id = false) ->
   post_admin_applications_reject cfg clk net req w
   = (say w (console_error
               [Text "Application not found for rejection:"; Text id]),
      Redirect "/admin")
   /\ readApplications cfg
        (disk (post_admin_applications_delete cfg req w).1) = apps
   /\ (forall q, q <> APPS_FILE cfg ->
                 disk (post_admin_applications_delete cfg req w).1 !! q
                 = disk w !! q))
  /\ ((forall j, j ∈ jobs -> same_id (Job.id j) id = false) ->
      (forall app, app ∈ apps -> same_id (Application.jobId app) id = false) ->
      readJobs cfg (disk (post_admin_jobs_delete cfg req w).1) = jobs
      /\ readApplications cfg (disk (post_admin_jobs_delete cfg req w).1)
         = apps).
Proof.
  intros req jobs apps. split.
  - intros Hnone. split; [| split].
    + unfold post_admin_applications_reject, req.
      cbn [session_user admin_id]. fold apps.
      by rewrite (findIndex_none _ apps Hnone).
    + unfold req. rewrite post_admin_applications_delete_session.
      cbn [fst disk with_disk]. rewrite readApplications_writeApplications.
      apply filter_all_true. intros a Ha. fold apps in Ha.
      by rewrite (Hnone a Ha).
    + intros q Hq. unfold req. rewrite post_admin_applications_delete_session.
      cbn [fst disk with_disk].
      unfold writeApplications, write_store, Fs.writeFileSync.
      rewrite lookup_insert_ne by done.
      apply swept_other. intros a r Ha Hid. fold apps in Ha.
      rewrite (Hnone a Ha) in Hid. discriminate Hid.
  - intros Hj Ha. unfold req. rewrite post_admin_jobs_delete_session.
    cbn [fst disk with_disk]. fold jobs apps.
    assert (List.filter (fun j => negb (same_id (Job.id j) id)) jobs = jobs)
      as -> by (apply filter_all_true; intros j Hin; by rewrite (Hj j Hin)).
    split.
    + rewrite readJobs_writeApplications.
      rewrite (readJobs_agree cfg (writeJobs cfg jobs (disk w))).
      * apply readJobs_writeJobs.
      * apply swept_other. intros a r Hin Hid.
        rewrite (Ha a Hin) in Hid. discriminate Hid.
    + rewrite readApplications_writeApplications.
      apply filter_all_true. intros a Hin. by rewrite (Ha a Hin).
Qed.

(** ** Resume references stay references to uploads *)

Section ReferenceFacts.
Import Spec.

Variable cfg : Config.

Lemma well_referenced_subset (big small : list Application.t) :
  (forall a, a ∈ small -> a ∈ big) ->
  well_referenced big -> well_referenced small.
Proof. intros Hsub Hbig a r Ha. apply Hbig. by apply Hsub. Qed.

Lemma well_referenced_snoc apps app n :
  well_referenced apps ->
  Application.resume app = Some ("/uploads/" +:+ n) ->
  n <> "" -> plain_name n = true ->
  well_referenced (apps ++ [app]).
Proof.
  intros Happs Hr Hne Hn a r [Ha | ->%list_elem_of_singleton]%elem_of_app.
  - by apply Happs.
  - rewrite Hr. intros [= <-]. by exists n.
Qed.

Lemma post_jobs_apply_keeps_references clk net req w :
  (forall file, apply_file req = Some file ->
                plain_name (originalname file) = true) ->
  well_referenced (readApplications cfg (disk w)) ->
  well_referenced
    (readApplications cfg (disk (post_jobs_apply cfg clk net req w).1)).
Proof.
  intros Hplain Hw.
  destruct (post_jobs_apply_shape cfg clk net req w)
    as [(_ & _ & _ & Hd)
       | (job & file & Hjob & Hfile & Hfilter & Hmax & Hvalid & _)].
  - rewrite (readApplications_agree cfg (disk w)); [done |].
    apply Hd. intros n E. symmetry in E. by apply upload_not_apps_file in E.
  - destruct (post_jobs_apply_valid_upload cfg clk net req file job w
                Hjob Hfile Hfilter Hmax Hvalid) as (_ & -> & _).
    apply (well_referenced_snoc _ _ (filename (upload_ms clk) file)).
    + done.
    + apply new_application_resume. by apply Hplain.
    + apply filename_not_empty.
    + apply filename_plain. by apply Hplain.
Qed.

End ReferenceFacts.

(** X13. An invariant of the application store: when every resume
    reference in it has the form [/uploads/<name>] with a name free of
    separators, it is still so after any request to the routes that write:
    a submission (whose file name, as multer gives it, is free of
    separators), the addition or the deletion of a job, the deletion or
    the rejection of an application; with or without a session and however
    the mail API answers. *)
Theorem resume_references_stay_uploads (cfg : Config) (w : World) :
  Spec.well_referenced (readApplications cfg (disk w)) ->
  (forall clk net req,
      (forall file, apply_file req = Some file ->
                    Spec.plain_name (originalname file) = true) ->
      Spec.well_referenced
        (readApplications cfg (disk (post_jobs_apply cfg clk net req w).1)))
  /\ (forall clk user body,
         Spec.well_referenced
           (readApplications cfg
              (disk (post_admin_jobs cfg clk user body w).1)))
  /\ (forall req,
         Spec.well_referenced
           (readApplications cfg (disk (post_admin_jobs_delete cfg req w).1)))
  /\ (forall req,
         Spec.well_referenced
           (readApplications cfg
              (disk (post_admin_applications_delete cfg req w).1)))
  /\ (forall clk net req,
         Spec.well_referenced
           (readApplications cfg
              (disk (post_admin_applications_reject cfg clk net req w).1))).
Proof.
  intros Hw. split; [| split; [| split; [| split]]].
  - intros clk net req Hplain. by apply post_jobs_apply_keeps_references.
  - intros clk [user|] body; [| done].
    unfold post_admin_jobs. cbn [fst disk with_disk].
    by rewrite readApplications_writeJobs.
  - intros req. apply (well_referenced_subset _ _
                         (post_admin_jobs_delete_subset cfg req w) Hw).
  - intros req. apply (well_referenced_subset _ _
                         (post_admin_applications_delete_subset cfg req w) Hw).
  - intros clk net req.
    apply (well_referenced_subset _ _
             (post_admin_applications_reject_subset cfg clk net req w) Hw).
Qed.

Lemma resume_references_stay_uploads_witness :
  Spec.well_referenced
    (readApplications Demo.plain (disk (Demo.world Demo.plain)))
  /\ forall req,
       Spec.well_referenced
         (readApplications Demo.plain
            (disk (post_admin_jobs_delete Demo.plain req
                     (Demo.world Demo.plain)).1)).
Proof.
  assert (Spec.well_referenced
            (readApplications Demo.plain (disk (Demo.world Demo.plain))))
    as Hw.
  { intros a r Ha Hr. vm_compute in Ha.
    apply elem_of_cons in Ha as [-> | Ha];
      [| apply elem_of_cons in Ha as [-> | Ha]; [| inversion Ha]];
      injection Hr as <-.
    - exists "1000-cv.pdf". by repeat split.
    - exists "1001-ravi.doc". by repeat split. }
  split; [exact Hw |].
  apply (resume_references_stay_uploads Demo.plain (Demo.world Demo.plain) Hw).
Defined.

(** ** A submission and its rejection *)

Section UndoFacts.

Variable cfg : Config.

Lemma reject_last_application clk net user a (w : World)
    (apps : list Application.t) n :
  readApplications cfg (disk w) = apps ++ [a] ->
  (forall b, b ∈ apps -> Application.id b <> Application.id a) ->
  Application.resume a = Some ("/uploads/" +:+ n) ->
  n <> "" -> Spec.plain_name n = true ->
  let out := post_admin_applications_reject cfg clk net
               {| session_user := Some user;
                  admin_id := Str.of_Z (Application.id a) |} w in
  out.2 = Redirect "/admin"
  /\ readApplications cfg (disk out.1) = apps
  /\ readJobs cfg (disk out.1) = readJobs cfg (disk w)
  /\ disk out.1 !! Path.join (uploadsDir cfg) n = None.
Proof.
  intros Happs Hfresh Hres Hne Hplain out.
  assert (findIndex
            (fun app => same_id (Application.id app)
                          (Str.of_Z (Application.id a)))
            (readApplications cfg (disk w)) = Some (length apps)) as Hidx.
  { rewrite Happs. apply findIndex_app_fresh.
    - intros b Hb. apply not_true_is_false. intros E.
      apply same_id_of_Z in E. by apply (Hfresh b Hb).
    - by apply same_id_of_Z. }
  assert (readApplications cfg (disk w) !! length apps = Some a) as Hat.
  { rewrite Happs. by apply list_lookup_middle. }
  unfold out.
  rewrite (post_admin_applications_reject_found cfg clk net user _ w _ a
             Hidx Hat).
  cbv zeta. cbn [fst snd disk say with_disk].
  rewrite Hres, remove_resume_some, upload_reference_resolves by
    (done || by destruct n).
  split; [done |]. split; [| split].
  - rewrite readApplications_writeApplications, Happs. apply delete_last.
  - rewrite readJobs_writeApplications. apply readJobs_agree.
    rewrite lookup_delete_ne by apply upload_not_jobs_file.
    apply notify_rejection_elsewhere. apply not_eq_sym, mail_log_not_jobs_file.
  - unfold writeApplications, write_store, Fs.writeFileSync.
    rewrite lookup_insert_ne by apply not_eq_sym, upload_not_apps_file.
    apply lookup_delete_eq.
Qed.

End UndoFacts.

(** X14. A submission followed by its rejection leaves no trace in the
    stores.  When a valid submission is stored under an id that no earlier
    application has, and the administrator then rejects the application of
    that id, the application store reads as before the submission, the job
    store is as it was, and the uploaded file is gone from the uploads
    directory; this holds however the mail API answered either time. *)
Theorem reject_undoes_submission (cfg : Config) (clk clk' : Clock)
    (net net' : FetchOutcome) (req : ApplyRequest) (file : FilePart)
    (job : Job.t) (user : string) (w : World) :
  List.find (fun j => same_id (Job.id j) (apply_id req))
    (readJobs cfg (disk w)) = Some job ->
  apply_file req = Some file ->
  fileFilter file = None ->
  Z.of_nat (String.length (content file)) <= MAX_RESUME_BYTES ->
  passes_validation req (content file) ->
  Spec.plain_name (originalname file) = true ->
  (forall b, b ∈ readApplications cfg (disk w) ->
             Application.id b <> now_ms clk) ->
  let stored := (post_jobs_apply cfg clk net req w).1 in
  let out := post_admin_applications_reject cfg clk' net'
               {| session_user := Some user;
                  admin_id := Str.of_Z (now_ms clk) |} stored in
  disk stored !! Path.join (uploadsDir cfg) (filename (upload_ms clk) file)
  = Some (content file)
  /\ out.2 = Redirect "/admin"
  /\ readApplications cfg (disk out.1) = readApplications cfg (disk w)
  /\ readJobs cfg (disk out.1) = readJobs cfg (disk w)
  /\ disk out.1 !! Path.join (uploadsDir cfg) (filename (upload_ms clk) file)
     = None.
Proof.
  intros Hjob Hfile Hfilter Hmax Hvalid Hplain Hfresh stored out.
  destruct (post_jobs_apply_valid_upload cfg clk net req file job w
              Hjob Hfile Hfilter Hmax Hvalid) as (Hd & Happs & Hjobs & _).
  fold stored in Hd, Happs, Hjobs.
  split; [exact Hd |].
  rewrite <- Hjobs.
  apply (reject_last_application cfg clk' net' user _ stored _
           (filename (upload_ms clk) file) Happs).
  - exact Hfresh.
  - by apply new_application_resume.
  - apply filename_not_empty.
  - by apply filename_plain.
Qed.

Lemma reject_undoes_submission_witness :
  let req := {| apply_id := "17"; apply_body := Demo.body;
                apply_file := Some Demo.resume |} in
  let w := Demo.world Demo.mailing in
  let stored := (post_jobs_apply Demo.mailing Demo.clock FetchOk req w).1 in
  let out := post_admin_applications_reject Demo.mailing Demo.clock
               (FetchThrows "ECONNRESET")
               {| session_user := Some "admin";
                  admin_id := Str.of_Z (now_ms Demo.clock) |} stored in
  disk stored
    !! Path.join (uploadsDir Demo.mailing)
         (filename (upload_ms Demo.clock) Demo.resume)
  = Some (content Demo.resume)
  /\ out.2 = Redirect "/admin"
  /\ readApplications Demo.mailing (disk out.1)
     = readApplications Demo.mailing (disk w)
  /\ readJobs Demo.mailing (disk out.1) = readJobs Demo.mailing (disk w)
  /\ disk out.1
       !! Path.join (uploadsDir Demo.mailing)
            (filename (upload_ms Demo.clock) Demo.resume)
     = None.
Proof.
  intros req w.
  apply (reject_undoes_submission Demo.mailing Demo.clock Demo.clock
           FetchOk (FetchThrows "ECONNRESET") req Demo.resume Demo.welder
           "admin" w).
  - vm_compute. reflexivity.
  - reflexivity.
  - reflexivity.
  - vm_compute. discriminate.
  - unfold passes_validation. repeat split; vm_compute; congruence.
  - reflexivity.
  - intros b Hb. vm_compute in Hb.
    apply elem_of_cons in Hb as [-> | Hb];
      [| apply elem_of_cons in Hb as [-> | Hb]; [| inversion Hb]];
      vm_compute; discriminate.
Defined.

(** ** The answer of the mail API and the rest of a request *)

Section OutcomeFacts.

Variable cfg : Config.

Lemma remove_resume_lookup_agree resume (d d' : gmap string string) q :
  d !! q = d' !! q ->
  remove_resume cfg resume d !! q = remove_resume cfg resume d' !! q.
Proof.
  intros E. unfold remove_resume. destruct (Str.truthy resume); [| done].
  rewrite !unlink_if_exists_delete, !lookup_delete. by case_decide.
Qed.

Lemma writeApplications_lookup_agree apps (d d' : gmap string string) q :
  d !! q = d' !! q ->
  writeApplications cfg apps d !! q = writeApplications cfg apps d' !! q.
Proof.
  intros E. unfold writeApplications, write_store, Fs.writeFileSync.
  destruct (decide (APPS_FILE cfg = q)) as [<- | Hq].
  - by rewrite !lookup_insert_eq.
  - by rewrite !lookup_insert_ne.
Qed.

Lemma apply_callback_mail_outcome clk net net' req err file w :
  let a := apply_callback cfg clk net req err file w in
  let b := apply_callback cfg clk net' req err file w in
  a.2 = b.2
  /\ network a.1 = network b.1
  /\ forall q, q <> MAIL_LOG cfg -> disk a.1 !! q = disk b.1 !! q.
Proof.
  intros a b. unfold a, b, apply_callback.
  destruct (List.find _ _) as [job|]; [| done].
  destruct err as [message|]; [done |].
  destruct (negb _ || _ || _ || _); [done |].
  destruct (negb (Regex.test emailRe _)); [done |].
  destruct (negb (Regex.test phoneRe _)); [done |].
  destruct file as [f|]; [| done].
  destruct (Fs.statSync_size _ _) as [size|]; [| done].
  destruct (size <? MIN_RESUME_BYTES); [done |].
  cbv zeta. cbn [fst snd]. split; [done |]. split.
  - by rewrite !notify_confirmation_network.
  - intros q Hq. by rewrite !notify_confirmation_elsewhere.
Qed.

Lemma post_admin_applications_reject_mail_outcome clk net net' req w :
  let a := post_admin_applications_reject cfg clk net req w in
  let b := post_admin_applications_reject cfg clk net' req w in
  a.2 = b.2
  /\ network a.1 = network b.1
  /\ forall q, q <> MAIL_LOG cfg -> disk a.1 !! q = disk b.1 !! q.
Proof.
  intros a b. unfold a, b, post_admin_applications_reject.
  destruct (session_user req) as [user|]; [| done].
  destruct (findIndex _ _) as [i|]; [| done].
  destruct (_ !! i) as [app|]; [| done].
  cbv zeta. cbn [fst snd disk network say with_disk].
  split; [done |]. split.
  - by rewrite !notify_rejection_network.
  - intros q Hq. apply writeApplications_lookup_agree,
      remove_resume_lookup_agree.
    by rewrite !notify_rejection_elsewhere.
Qed.

End OutcomeFacts.

(** X15. The answer of the mail API reaches nothing but the mail log
    and the console.  Run the same submission, or the same rejection, on
    the same state under two answers of the API (success, an error status,
    a thrown network error): the response to the browser is the same, the
    calls made to the API are the same, and every file other than the mail
    log has the same content. *)
Theorem mail_outcome_reaches_only_the_log (cfg : Config) (clk : Clock)
    (net net' : FetchOutcome) (w : World) :
  (forall req,
      let a := post_jobs_apply cfg clk net req w in
      let b := post_jobs_apply cfg clk net' req w in
      a.2 = b.2
      /\ network a.1 = network b.1
      /\ forall q, q <> MAIL_LOG cfg -> disk a.1 !! q = disk b.1 !! q)
  /\ (forall req,
         let a := post_admin_applications_reject cfg clk net req w in
         let b := post_admin_applications_reject cfg clk net' req w in
         a.2 = b.2
         /\ network a.1 = network b.1
         /\ forall q, q <> MAIL_LOG cfg -> disk a.1 !! q = disk b.1 !! q).
Proof.
  split.
  - intros req. unfold post_jobs_apply.
    destruct (upload_single cfg (upload_ms clk) (apply_file req) (disk w))
      as [[d err] file].
    apply apply_callback_mail_outcome.
  - intros req. apply post_admin_applications_reject_mail_outcome.
Qed.

(** ** The form and the submission of one job *)

Section FormFacts.

Variable cfg : Config.

Lemma apply_callback_answers clk net req err file w :
  let out := apply_callback cfg clk net req err file w in
  match List.find (fun j => same_id (Job.id j) (apply_id req))
          (readJobs cfg (disk w)) with
  | None => out.2 = Send 404 "Job not found"
  | Some job =>
      (exists error, out.2 = RenderApply job error
                               (submitted_form (apply_body req)))
      \/ (exists app, out.2 = RenderApplySuccess job app)
  end.
Proof.
  intros out. unfold out, apply_callback.
  destruct (List.find _ _) as [job|]; [| done].
  destruct err as [message|]; [left; by eexists |].
  destruct (negb _ || _ || _ || _); [left; by eexists |].
  destruct (negb (Regex.test emailRe _)); [left; by eexists |].
  destruct (negb (Regex.test phoneRe _)); [left; by eexists |].
  destruct file as [f|]; [| left; by eexists].
  destruct (Fs.statSync_size _ _) as [size|]; [| left; by eexists].
  destruct (size <? MIN_RESUME_BYTES); [left; by eexists |].
  right. by eexists.
Qed.

End FormFacts.

(** X16. The form and its submission agree on the job.  GET
    /jobs/:id/apply answers 404 exactly when a POST to the same address on
    the same state does, whatever was uploaded with it; and when the GET
    renders the form of a job, the POST answers with that same job: either
    the form again, with an error and the four fields as the visitor typed
    them, or the success page. *)
Theorem form_and_submission_agree_on_job (cfg : Config) (clk : Clock)
    (net : FetchOutcome) (req : ApplyRequest) (w : World) :
  let page := get_jobs_apply cfg (apply_id req) (disk w) in
  let out := post_jobs_apply cfg clk net req w in
  (page = PageSend 404 "Job not found" <-> out.2 = Send 404 "Job not found")
  /\ (forall job,
         page = RenderApplyForm job ->
         (exists error,
             out.2 = RenderApply job error (submitted_form (apply_body req)))
         \/ (exists app, out.2 = RenderApplySuccess job app)).
Proof.
  intros page out.
  assert (match List.find (fun j => same_id (Job.id j) (apply_id req))
                  (readJobs cfg (disk w)) with
          | None => out.2 = Send 404 "Job not found"
          | Some job =>
              (exists error, out.2 = RenderApply job error
                                       (submitted_form (apply_body req)))
              \/ (exists app, out.2 = RenderApplySuccess job app)
          end) as Hout.
  { unfold out, post_jobs_apply.
    pose proof (upload_single_jobs cfg (upload_ms clk) (apply_file req)
                  (disk w)) as Hjobs.
    destruct (upload_single cfg (upload_ms clk) (apply_file req) (disk w))
      as [[d err] file].
    cbn [fst] in Hjobs. rewrite <- Hjobs.
    apply (apply_callback_answers cfg clk net req err file (with_disk w d)). }
  unfold page, get_jobs_apply.
  destruct (List.find _ _) as [job|].
  - split.
    + split; [done |].
      destruct Hout as [[error ->] | [app ->]]; done.
    + by intros j [= <-].
  - split; [done | done].
Qed.

(** ** Signing in *)

Section SessionFacts.

Variable cfg : Config.

Lemma strict_eq_true (a b : option string) : strict_eq a b = true <-> a = b.
Proof.
  destruct a as [x|], b as [y|]; simpl; try done.
  rewrite String.eqb_eq. split; [by intros -> | by intros [= ->]].
Qed.

Lemma post_admin_login_match admin body session :
  (post_admin_login admin body session).2 = PageRedirect "/admin"
  <-> login_username body = ADMIN_USERNAME admin
      /\ login_password body = ADMIN_PASSWORD admin.
Proof.
  unfold post_admin_login.
  rewrite <- !strict_eq_true, <- andb_true_iff.
  by destruct (_ && _).
Qed.

End SessionFacts.

(** X17. POST /admin/login opens the console exactly on an exact match:
    starting without a session, the admin page shows the console after the
    login if and only if both submitted fields equal the configured
    credentials, and the login then redirects to /admin; otherwise the
    login form comes back with "Invalid credentials" and a session that was
    there stays as it was.  An absent field equals an absent credential:
    with neither credential configured, a login form without the two
    fields signs in.  After a logout the admin page shows the login form
    again. *)
Theorem login_opens_console_iff_match (cfg : Config) (admin : AdminUser)
    (body : LoginBody) (session : option SessionUser)
    (d : gmap string string) :
  let matching :=
    login_username body = ADMIN_USERNAME admin
    /\ login_password body = ADMIN_PASSWORD admin in
  let out := post_admin_login admin body None in
  (get_admin cfg out.1 d
   = RenderAdmin (readJobs cfg d) (readApplications cfg d) <-> matching)
  /\ (out.2 = PageRedirect "/admin" <-> matching)
  /\ (~ matching ->
      post_admin_login admin body session
      = (session, RenderAdminLogin (Some "Invalid credentials") None))
  /\ (ADMIN_USERNAME admin = None -> ADMIN_PASSWORD admin = None ->
      (post_admin_login admin
         {| login_username := None; login_password := None |} None).2
      = PageRedirect "/admin")
  /\ get_admin cfg (post_admin_logout out.1).1 d
     = RenderAdminLogin None (Some []).
Proof.
  intros matching out.
  assert (out.2 = PageRedirect "/admin" <-> matching) as Hout
    by apply post_admin_login_match.
  split; [| split; [exact Hout | split; [| split]]].
  - rewrite <- Hout. unfold out, post_admin_login.
    by destruct (_ && _).
  - intros Hno. unfold post_admin_login.
    destruct (_ && _) eqn:E; [| done].
    destruct Hno. apply andb_true_iff in E as [E1 E2].
    by split; apply strict_eq_true.
  - intros Hu Hp. apply post_admin_login_match. by rewrite Hu, Hp.
  - done.
Qed.


(** ** Numbers typed into the job form *)

Section NumFacts.



Lemma to_uint_starts_with_a_digit p :
  exists c r, NilEmpty.string_of_uint (Pos.to_uint p) = String c r
              /\ Chars.is_digit c = true.
Proof.
  pose proof (DecimalPos.Unsigned.to_uint_nonnil p).
  destruct (Pos.to_uint p); [done | simpl; eauto ..].
Qed.



Lemma of_Z_not_empty (n : Z) (rest : string) :
  exists c r, Str.of_Z n +:+ rest = String c r.
Proof.
  unfold Str.of_Z. destruct n as [|p|p]; simpl; [by eexists _, _ | |].
  - rewrite JsonFacts.string_of_uint_to_uint.
    destruct (to_uint_starts_with_a_digit p) as (c & r & -> & _).
    simpl. by eexists _, _.
  - by eexists _, _.
Qed.


End NumFacts.


(** ** The extension of a stored upload *)

Section ExtensionFacts.
Import Spec.

Lemma basename_slashless (s : string) :
  slashless s = true -> Path.basename s = s.
Proof.
  intros Hs. unfold Path.basename, Path.split.
  rewrite split_go_slashless by done. by destruct s.
Qed.

Lemma split_last_dot_suffix (s pre suf : string) :
  Path.split_last_dot s = Some (pre, suf) ->
  s = pre +:+ suf /\ Path.split_last_dot suf = Some (EmptyString, suf).
Proof.
  revert pre. induction s as [|c r IH]; intros pre; simpl; [done |].
  destruct (Path.split_last_dot r) as [[pre' suf']|] eqn:E.
  - intros [= <- <-]. destruct (IH pre' eq_refl) as [-> Hsuf]. done.
  - destruct (Ascii.eqb c ".") eqn:Ec; [| done].
    intros [= <- <-]. split; [done |]. simpl. by rewrite E, Ec.
Qed.

Lemma split_last_dot_app (x s pre suf : string) :
  Path.split_last_dot s = Some (pre, suf) ->
  Path.split_last_dot (x +:+ s) = Some (x +:+ pre, suf).
Proof.
  intros Hs. induction x as [|c x IH]; simpl; [done |]. by rewrite IH.
Qed.

Lemma collapse_ws_from_spaceless in_run (s : string) :
  spaceless s = true -> Str.collapse_ws_from in_run s = s.
Proof.
  revert in_run. induction s as [|c r IH]; intros in_run; simpl; [done |].
  intros [Hc Hr]%andb_true_iff. apply negb_true_iff in Hc. rewrite Hc.
  by rewrite IH.
Qed.

Lemma collapse_ws_from_app in_run (pre suf : string) :
  spaceless suf = true ->
  Str.collapse_ws_from in_run (pre +:+ suf)
  = Str.collapse_ws_from in_run pre +:+ suf.
Proof.
  intros Hsuf. revert in_run.
  induction pre as [|c r IH]; intros in_run; simpl.
  - by apply collapse_ws_from_spaceless.
  - destruct (Chars.is_space c); [destruct in_run |]; simpl; by rewrite IH.
Qed.

Lemma to_lower_space c : Chars.is_space (Chars.to_lower c) = Chars.is_space c.
Proof. destruct c as [[] [] [] [] [] [] [] []]; reflexivity. Qed.

Lemma spaceless_toLowerCase (s : string) :
  spaceless (Str.toLowerCase s) = spaceless s.
Proof.
  unfold spaceless. induction s as [|c r IH]; [done |].
  cbn [Str.toLowerCase all]. by rewrite to_lower_space, IH.
Qed.

Lemma length_toLowerCase (s : string) :
  String.length (Str.toLowerCase s) = String.length s.
Proof. induction s as [|c r IH]; simpl; [done | by rewrite IH]. Qed.

(** What an accepted name looks like: a stem that is not empty, then an
    extension without white space that is the text from the last dot on. *)
Lemma accepted_name (file : FilePart) :
  fileFilter file = None -> slashless (originalname file) = true ->
  exists pre suf,
    originalname file = pre +:+ suf
    /\ Path.extname (originalname file) = suf
    /\ Path.split_last_dot suf = Some (EmptyString, suf)
    /\ spaceless suf = true
    /\ (4 <= String.length suf)%nat.
Proof.
  intros Hok Hplain. rewrite fileFilter_by_extension in Hok.
  destruct (includes allowedExt _) eqn:Hext; [clear Hok | done].
  apply includes_allowedExt in Hext.
  assert (spaceless (Path.extname (originalname file)) = true
          /\ (4 <= String.length (Path.extname (originalname file)))%nat)
    as [Hsp Hlen].
  { rewrite <- spaceless_toLowerCase, <- length_toLowerCase.
    destruct Hext as [-> | [-> | ->]]; (split; [reflexivity | simpl; lia]). }
  revert Hsp Hlen. unfold Path.extname.
  rewrite basename_slashless by done.
  destruct (Path.split_last_dot (originalname file)) as [[pre suf]|] eqn:E;
    [| simpl; lia].
  destruct (split_last_dot_suffix _ _ _ E) as [Hname Hsuf].
  destruct pre as [|c pre]; [simpl; lia |].
  destruct (String.eqb _ _); [simpl; lia |].
  intros Hsp Hlen. by exists (String c pre), suf.
Qed.

Lemma filename_extname now file :
  fileFilter file = None -> plain_name (originalname file) = true ->
  Path.extname (filename now file) = Path.extname (originalname file).
Proof.
  intros Hok Hplain.
  destruct (accepted_name file Hok (plain_slashless _ Hplain))
    as (pre & suf & Hname & -> & Hsuf & Hsp & Hlen).
  pose proof (filename_plain now file Hplain) as Hstored.
  unfold Path.extname. rewrite basename_slashless by by apply plain_slashless.
  unfold filename, Str.collapse_ws. rewrite Hname.
  rewrite collapse_ws_from_app by done.
  rewrite <- (app_assoc_str "-" _ suf), <- (app_assoc_str (Str.of_Z now) _ suf).
  rewrite (split_last_dot_app _ suf EmptyString suf Hsuf), app_empty_r.
  destruct (of_Z_not_empty now ("-" +:+ Str.collapse_ws_from false pre))
    as (c & r & ->).
  destruct (String.eqb_spec (String c r +:+ suf) "..") as [E | _]; [| done].
  apply (f_equal String.length) in E. rewrite length_app_str in E.
  simpl in E. lia.
Qed.

End ExtensionFacts.

(** X20. An accepted upload keeps its extension on the disk.  When the
    filter accepts a file whose name holds no separator, the name it is
    stored under has the same extension as the original name, so the stored
    name would pass the filter too; renaming touches the white space of the
    stem only. *)
Theorem stored_name_keeps_extension (now : Z) (file : FilePart) :
  fileFilter file = None ->
  Spec.plain_name (originalname file) = true ->
  Path.extname (filename now file) = Path.extname (originalname file)
  /\ Spec.spaceless (Path.extname (originalname file)) = true
  /\ fileFilter {| originalname := filename now file;
                   mimetype := mimetype file;
                   content := content file |} = None.
Proof.
  intros Hok Hplain.
  pose proof (filename_extname now file Hok Hplain) as Hext.
  split; [exact Hext |]. split.
  - destruct (accepted_name file Hok (plain_slashless _ Hplain))
      as (pre & suf & _ & -> & _ & Hsp & _). exact Hsp.
  - rewrite fileFilter_by_extension in Hok |- *.
    cbn [originalname]. by rewrite Hext.
Qed.

Lemma stored_name_keeps_extension_witness :
  Path.extname (filename 2000 Demo.resume) = ".docx"
  /\ fileFilter {| originalname := filename 2000 Demo.resume;
                   mimetype := mimetype Demo.resume;
                   content := content Demo.resume |} = None.
Proof.
  destruct (stored_name_keeps_extension 2000 Demo.resume)
    as (Hext & _ & Hok); [reflexivity | reflexivity |].
  split; [| exact Hok].
  rewrite Hext. reflexivity.
Defined.
